(** * The IGDB client of gamingwithyou: token life cycle and request cache

    A shallow embedding of [class IGDBService] (the service module of the
    repository) and the properties of its token refresh, its five-minute
    request cache and its input validation.

    Conventions of the embedding.
    - JavaScript strings are [string]s whose characters are code units
      below 256.
    - [number]s that the client computes with (epoch milliseconds, token
      life times, ids, limits) are integers, modelled in [Z].
    - The object state ([this.*]) is a record that is threaded through a
      state-and-exception monad [M]; what a call has mutated before it
      throws stays mutated.
    - The outside world is an oracle [Env]: the successive readings of
      [Date.now()] and the successive outcomes of the two kinds of
      [axios.post]. Every outbound request is appended to a trace.
    - One call runs at a time: what other calls could do while a call is
      suspended at an [await] is not modelled.
    - [console.warn] and [console.error] are left out. *)

From Stdlib Require Import ZArith List String Ascii Bool Lia DecimalString.
From Stdlib Require DecimalPos DecimalZ.
Import ListNotations.
Local Open Scope string_scope.
Local Open Scope Z_scope.

(** ** JavaScript values *)

Module JS.

(** The characters that [String.prototype.trim] strips, among the code
    units below 256: TAB, LF, VT, FF, CR, SP and NBSP. *)
Definition isWhiteSpace (c : ascii) : bool :=
  existsb (Ascii.eqb c)
          ["009"; "010"; "011"; "012"; "013"; "032"; "160"]%char.

Fixpoint trimStart (s : string) : string :=
  match s with
  | EmptyString => EmptyString
  | String c s' => if isWhiteSpace c then trimStart s' else s
  end.

Fixpoint trimEnd (s : string) : string :=
  match s with
  | EmptyString => EmptyString
  | String c s' =>
      match trimEnd s' with
      | EmptyString => if isWhiteSpace c then EmptyString
                       else String c EmptyString
      | t => String c t
      end
  end.

Definition trim (s : string) : string := trimEnd (trimStart s).

(** Truthiness of a string: every string but the empty one. *)
Definition truthy_string (s : string) : bool :=
  match s with EmptyString => false | String _ _ => true end.

(** Truthiness of a number (no NaN among the integers). *)
Definition truthy_number (n : Z) : bool := negb (n =? 0).

(** [`${n}`] for an integral number: plain decimal, which is what
    JavaScript prints for every safe integer (it prints an exponent from
    22 digits on). *)
Definition Number_toString (n : Z) : string :=
  NilZero.string_of_int (Z.to_int n).

(** The values of type [any]: what a parsed JSON response body can be,
    and [undefined], which an absent property reads as. The client never
    computes with a payload: it tests it for truthiness, stores it, returns
    it, and takes the first element of an array; numbers inside payloads
    are kept integral. *)
#[local] Unset Elimination Schemes.
Inductive Value : Type :=
| VUndefined
| VNull
| VBool (b : bool)
| VNum (n : Z)
| VStr (s : string)
| VArr (items : list Value)
| VObj (fields : list (string * Value)).
#[local] Set Elimination Schemes.

(** [if (v)], [v && ...], [!!v] *)
Definition truthy (v : Value) : bool :=
  match v with
  | VUndefined => false
  | VNull => false
  | VBool b => b
  | VNum n => truthy_number n
  | VStr s => truthy_string s
  | VArr _ => true
  | VObj _ => true
  end.

(** What the code throws: [new Error(message)] everywhere; the rejection
    of an [axios] promise carries [error.response?.status] and
    [error.code]; a [TypeError] comes from the runtime. *)
Inductive Exn : Type :=
| Error (message : string)
| AxiosError (status : option Z) (code : option string)
| TypeError (message : string).

Definition response_status (error : Exn) : option Z :=
  match error with AxiosError st _ => st | _ => None end.

Definition error_code (error : Exn) : option string :=
  match error with AxiosError _ c => c | _ => None end.

(** How a call, or a promise, ends. *)
Inductive Completion (A : Type) : Type :=
| Ok (a : A)
| Throw (e : Exn).
Arguments Ok {A} a.
Arguments Throw {A} e.

(** [Map<string, V>]: the entries in insertion order, which is the order
    of [keys()]; [set] on a key that is present keeps its place. *)
Definition Map (V : Type) : Type := list (string * V).

Fixpoint Map_get {V} (k : string) (m : Map V) : option V :=
  match m with
  | [] => None
  | (k', v) :: m' => if String.eqb k k' then Some v else Map_get k m'
  end.

Fixpoint Map_set {V} (k : string) (v : V) (m : Map V) : Map V :=
  match m with
  | [] => [(k, v)]
  | (k', v') :: m' =>
      if String.eqb k k' then (k', v) :: m' else (k', v') :: Map_set k v m'
  end.

Definition Map_clear {V} (m : Map V) : Map V := [].
Definition Map_size {V} (m : Map V) : Z := Z.of_nat (List.length m).
Definition Map_keys {V} (m : Map V) : list string := List.map fst m.

End JS.
Export JS.

(** ** The state of the client and of the world *)

Record CacheEntry : Type := mkEntry { data : Value; timestamp : Z }.

Record IGDBTokenResponse : Type := mkTokenResponse
  { access_token : string; expires_in : Z; token_type : string }.

Record IGDBService : Type := mkService
  { clientId : string;
    clientSecret : string;
    accessToken : option string;          (* string | null *)
    tokenExpiry : Z;
    requestCache : Map CacheEntry }.

Definition CACHE_DURATION : Z := 5 * 60 * 1000.

(** An outbound request. [TokenPost] is the POST to
    https://id.twitch.tv/oauth2/token with [grant_type=client_credentials];
    [DataPost] is the POST of [body] to https://api.igdb.com/v4/<endpoint>
    with the headers [Client-ID] and [Authorization: Bearer <bearer>]. *)
Inductive Event : Type :=
| TokenPost (client_id client_secret : string)
| DataPost (endpoint body client_ID bearer : string).

(** The oracle: the [n]-th reading of the clock, the outcome of the [n]-th
    token exchange and of the [n]-th data request (all counted from 0). *)
Record Env : Type := mkEnv
  { clock : nat -> Z;
    idp : nat -> Completion IGDBTokenResponse;
    api : nat -> Completion Value }.

Record State : Type := mkState
  { this : IGDBService;
    ticks : nat;             (* readings of the clock so far *)
    exchanges : nat;         (* token exchanges so far *)
    queries : nat;           (* data requests so far *)
    trace : list Event }.    (* outbound requests so far, oldest first *)

(** ** The monad *)

Definition M (A : Type) : Type := Env -> State -> Completion A * State.

Definition ret {A} (a : A) : M A := fun _ st => (Ok a, st).

Definition throw {A} (e : Exn) : M A := fun _ st => (Throw e, st).

Definition bind {A B} (m : M A) (k : A -> M B) : M B :=
  fun env st =>
    match m env st with
    | (Ok a, st') => k a env st'
    | (Throw e, st') => (Throw e, st')
    end.

(** [try { m } catch (error) { h error }] *)
Definition try_catch {A} (m : M A) (h : Exn -> M A) : M A :=
  fun env st =>
    match m env st with
    | (Ok a, st') => (Ok a, st')
    | (Throw e, st') => h e env st'
    end.

Declare Scope js_scope.
Delimit Scope js_scope with js.
Notation "x <- m ;; k" := (bind m (fun x => k))
  (at level 61, m at next level, right associativity) : js_scope.
Notation "m ;; k" := (bind m (fun _ => k))
  (at level 61, right associativity) : js_scope.
Local Open Scope js_scope.

Definition get_this : M IGDBService := fun _ st => (Ok (this st), st).

Definition set_this (s : IGDBService) : M unit :=
  fun _ st => (Ok tt, mkState s (ticks st) (exchanges st) (queries st) (trace st)).

Definition set_accessToken (t : option string) : M unit :=
  s <- get_this ;;
  set_this (mkService (clientId s) (clientSecret s) t (tokenExpiry s)
                      (requestCache s)).

Definition set_tokenExpiry (e : Z) : M unit :=
  s <- get_this ;;
  set_this (mkService (clientId s) (clientSecret s) (accessToken s) e
                      (requestCache s)).

Definition set_requestCache (c : Map CacheEntry) : M unit :=
  s <- get_this ;;
  set_this (mkService (clientId s) (clientSecret s) (accessToken s)
                      (tokenExpiry s) c).

(** [Date.now()] *)
Definition Date_now : M Z :=
  fun env st =>
    (Ok (clock env (ticks st)),
     mkState (this st) (S (ticks st)) (exchanges st) (queries st) (trace st)).

(** [await axios.post('https://id.twitch.tv/oauth2/token', null, ...)],
    giving [response.data]. *)
Definition post_token (client_id client_secret : string)
  : M IGDBTokenResponse :=
  fun env st =>
    (idp env (exchanges st),
     mkState (this st) (ticks st) (S (exchanges st)) (queries st)
             (trace st ++ [TokenPost client_id client_secret])).

(** [await axios.post(`https://api.igdb.com/v4/${endpoint}`, query, ...)],
    giving [response.data]. *)
Definition post_data (endpoint query client_ID token : string) : M Value :=
  fun env st =>
    (api env (queries st),
     mkState (this st) (ticks st) (exchanges st) (S (queries st))
             (trace st ++ [DataPost endpoint query client_ID token])).

(** ** The errors of the client

    The code throws plain [Error]s; they are told apart by their messages.
    The names are those of the error taxonomy of the specification. *)

Definition ConfigurationError : Exn :=
  Error "IGDB credentials not configured. Please set IGDB_CLIENT_ID and IGDB_CLIENT_SECRET in your .env.local file.".

(** The token exchange failed. *)
Definition AuthenticationError_exchange : Exn :=
  Error "Failed to authenticate with IGDB. Please check your credentials.".

(** The data endpoint answered 401. *)
Definition AuthenticationError : Exn :=
  Error "Authentication failed. Please check your IGDB credentials.".

Definition RateLimitError : Exn :=
  Error "IGDB rate limit exceeded. Please try again later.".

Definition TimeoutError : Exn :=
  Error "Request timeout. Please try again.".

Definition UpstreamError (endpoint : string) : Exn :=
  Error ("Failed to fetch data from IGDB " ++ endpoint
         ++ ". Please try again later.").

Definition ValidationError_query : Exn := Error "Search query cannot be empty".
Definition ValidationError_gameId : Exn := Error "Invalid game ID".
Definition ValidationError_slug : Exn := Error "Game slug cannot be empty".
Definition ValidationError_genreId : Exn := Error "Invalid genre ID".
Definition ValidationError_platformId : Exn := Error "Invalid platform ID".

Definition Exn_eqb (a b : Exn) : bool :=
  match a, b with
  | Error m, Error m' => String.eqb m m'
  | TypeError m, TypeError m' => String.eqb m m'
  | AxiosError s c, AxiosError s' c' =>
      match s, s' with
      | Some x, Some y => x =? y
      | None, None => true
      | _, _ => false
      end
      && match c, c' with
         | Some x, Some y => String.eqb x y
         | None, None => true
         | _, _ => false
         end
  | _, _ => false
  end.

Definition isValidationError (e : Exn) : bool :=
  existsb (Exn_eqb e)
          [ValidationError_query; ValidationError_gameId; ValidationError_slug;
           ValidationError_genreId; ValidationError_platformId].

(** ** The client *)

(** [constructor()]: [process.env.X || ''] for the two credentials. *)
Definition or_empty (v : option string) : string :=
  match v with
  | Some s => if truthy_string s then s else ""
  | None => ""
  end.

Definition constructor (IGDB_CLIENT_ID IGDB_CLIENT_SECRET : option string)
  : IGDBService :=
  {| clientId := or_empty IGDB_CLIENT_ID;
     clientSecret := or_empty IGDB_CLIENT_SECRET;
     accessToken := None;
     tokenExpiry := 0;
     requestCache := [] |}.

(** [isConfigured()]: [!!(this.clientId && this.clientSecret)] *)
Definition isConfigured (s : IGDBService) : bool :=
  truthy_string (clientId s) && truthy_string (clientSecret s).

(** [this.accessToken && Date.now() < this.tokenExpiry]: the clock is read
    only when the token is truthy. *)
Definition tokenIsValid : M bool :=
  s <- get_this ;;
  match accessToken s with
  | None => ret false
  | Some tok =>
      if truthy_string tok
      then now <- Date_now ;; ret (now <? tokenExpiry s)
      else ret false
  end.

Definition getAccessToken : M string :=
  s <- get_this ;;
  if negb (truthy_string (clientId s)) || negb (truthy_string (clientSecret s))
  then throw ConfigurationError
  else
    valid <- tokenIsValid ;;
    if valid
    then ret (match accessToken s with Some tok => tok | None => "" end)
    else
      try_catch
        (data <- post_token (clientId s) (clientSecret s) ;;
         set_accessToken (Some (access_token data)) ;;
         now <- Date_now ;;
         set_tokenExpiry (now + expires_in data * 1000 - 60000) ;;
         ret (access_token data))
        (fun error => throw AuthenticationError_exchange).

(** [`${endpoint}:${query}`] *)
Definition getCacheKey (endpoint query : string) : string :=
  endpoint ++ ":" ++ query.

(** [null] when there is no entry or the entry is too old; the clock is read
    only when there is an entry. *)
Definition getCachedData (cacheKey : string) : M Value :=
  s <- get_this ;;
  match Map_get cacheKey (requestCache s) with
  | None => ret VNull
  | Some cached =>
      now <- Date_now ;;
      if now - timestamp cached <? CACHE_DURATION
      then ret (data cached)
      else ret VNull
  end.

Definition setCachedData (cacheKey : string) (d : Value) : M unit :=
  now <- Date_now ;;
  s <- get_this ;;
  set_requestCache (Map_set cacheKey (mkEntry d now) (requestCache s)).

Definition option_Z_eqb (a : option Z) (b : Z) : bool :=
  match a with Some x => x =? b | None => false end.

Definition option_string_eqb (a : option string) (b : string) : bool :=
  match a with Some x => String.eqb x b | None => false end.

Definition makeRequest (endpoint query : string) : M Value :=
  let cacheKey := getCacheKey endpoint query in
  cachedData <- getCachedData cacheKey ;;
  if truthy cachedData
  then ret cachedData
  else
    token <- getAccessToken ;;
    s <- get_this ;;
    try_catch
      (d <- post_data endpoint query (clientId s) token ;;
       setCachedData cacheKey d ;;
       ret d)
      (fun error =>
         if option_Z_eqb (response_status error) 429
         then throw RateLimitError
         else if option_Z_eqb (response_status error) 401
         then
           set_accessToken None ;;
           set_tokenExpiry 0 ;;
           throw AuthenticationError
         else if option_string_eqb (error_code error) "ECONNABORTED"
         then throw TimeoutError
         else throw (UpstreamError endpoint)).

Definition makeCustomRequest (endpoint query : string) : M Value :=
  makeRequest endpoint query.

(** *** The query texts *)

Definition nl : string := String "010" EmptyString.
Definition dquote : string := String "034" EmptyString.

(** A line of a template literal of the methods: six spaces of
    indentation. *)
Definition line (s : string) : string := "      " ++ s ++ nl.

(** A template literal of the methods: a line break, the lines, and the
    four spaces before the closing back quote. *)
Definition template (lines : list string) : string :=
  nl ++ String.concat "" (List.map line lines) ++ "    ".

Definition fields_search : string :=
  "fields name,slug,summary,storyline,rating,rating_count,first_release_date,cover.url,genres.name,platforms.name;".

Definition fields_full : string :=
  "fields name,slug,summary,storyline,rating,rating_count,first_release_date,cover.url,genres.name,platforms.name,screenshots.url,videos.video_id,age_ratings.category,age_ratings.rating,game_modes.name,player_perspectives.name,websites.category,websites.url,similar_games.name,similar_games.cover.url,dlcs.name,dlcs.cover.url,expansions.name,expansions.cover.url,standalone_expansions.name,standalone_expansions.cover.url;".

(** A parameter with the default value 20. *)
Definition limit_or_default (limit : option Z) : Z :=
  match limit with Some l => l | None => 20 end.

Definition limit_line (limit : Z) : string :=
  "limit " ++ Number_toString (Z.min limit 50) ++ ";".

Definition searchQuery (query : string) (limit : Z) : string :=
  template
    [fields_search;
     "where version_parent = null & category = 0 & name ~ *" ++ dquote
       ++ query ++ dquote ++ "*;";
     limit_line limit;
     "sort rating desc;"].

Definition popularQuery (limit : Z) : string :=
  template
    [fields_full;
     "where rating_count > 100 & version_parent = null & category = 0;";
     "sort rating desc;";
     limit_line limit].

Definition byIdQuery (id : Z) : string :=
  template [fields_full; "where id = " ++ Number_toString id ++ ";"].

Definition bySlugQuery (slug : string) : string :=
  template [fields_full; "where slug = " ++ dquote ++ slug ++ dquote ++ ";"].

Definition listQuery : string :=
  template ["fields name;"; "sort name asc;"; "limit 50;"].

Definition byGenreQuery (genreId limit : Z) : string :=
  template
    [fields_full;
     "where genres = " ++ Number_toString genreId
       ++ " & version_parent = null & category = 0;";
     "sort rating desc;";
     limit_line limit].

Definition byPlatformQuery (platformId limit : Z) : string :=
  template
    [fields_full;
     "where platforms = " ++ Number_toString platformId
       ++ " & version_parent = null & category = 0;";
     "sort rating desc;";
     limit_line limit].

(** *** The public methods *)

Definition searchGames (query : string) (limit : option Z) : M Value :=
  let limit := limit_or_default limit in
  if negb (truthy_string (trim query))
  then throw ValidationError_query
  else makeRequest "games" (searchQuery query limit).

Definition getPopularGames (limit : option Z) : M Value :=
  let limit := limit_or_default limit in
  makeRequest "games" (popularQuery limit).

(** [!id || id <= 0] *)
Definition invalid_id (id : Z) : bool := negb (truthy_number id) || (id <=? 0).

Definition getGenres : M Value := makeRequest "genres" listQuery.

Definition getPlatforms : M Value := makeRequest "platforms" listQuery.

Definition getGamesByGenre (genreId : Z) (limit : option Z) : M Value :=
  let limit := limit_or_default limit in
  if invalid_id genreId
  then throw ValidationError_genreId
  else makeRequest "games" (byGenreQuery genreId limit).

Definition getGamesByPlatform (platformId : Z) (limit : option Z) : M Value :=
  let limit := limit_or_default limit in
  if invalid_id platformId
  then throw ValidationError_platformId
  else makeRequest "games" (byPlatformQuery platformId limit).

(** [clearCache()] *)
Definition clearCache : M unit :=
  s <- get_this ;;
  set_requestCache (Map_clear (requestCache s)).

(** [getCacheStats()]: [{ size, keys }] *)
Definition getCacheStats : M (Z * list string) :=
  s <- get_this ;;
  ret (Map_size (requestCache s), Map_keys (requestCache s)).

(** A completion that is already known, as a computation. *)
Definition lift {A} (c : Completion A) : M A := fun _ st => (c, st).

Section Lookup.

(** [games.length > 0 ? games[0] : null] is fixed by the language for
    every value but an object, where it depends on a property [length] the
    object may have and on its conversion to a number; that case is left
    open. [makeRequest] is declared to return an array. *)
Variable objectFirst : list (string * Value) -> Completion Value.

Definition firstOrNull (games : Value) : Completion Value :=
  match games with
  | VArr [] => Ok VNull
  | VArr (g :: _) => Ok g
  | VStr EmptyString => Ok VNull
  | VStr (String c _) => Ok (VStr (String c EmptyString))
  | VBool _ => Ok VNull
  | VNum _ => Ok VNull
  | VNull => Throw (TypeError "Cannot read properties of null")
  | VUndefined => Throw (TypeError "Cannot read properties of undefined")
  | VObj fields => objectFirst fields
  end.

Definition getGameById (id : Z) : M Value :=
  if invalid_id id
  then throw ValidationError_gameId
  else
    games <- makeRequest "games" (byIdQuery id) ;;
    lift (firstOrNull games).

Definition getGameBySlug (slug : string) : M Value :=
  if negb (truthy_string (trim slug))
  then throw ValidationError_slug
  else
    games <- makeRequest "games" (bySlugQuery slug) ;;
    lift (firstOrNull games).

(** *** The authenticated methods, as one family *)

Inductive Call : Type :=
| SearchGames (query : string) (limit : option Z)
| GetPopularGames (limit : option Z)
| GetGameById (id : Z)
| GetGameBySlug (slug : string)
| GetGamesByGenre (genreId : Z) (limit : option Z)
| GetGamesByPlatform (platformId : Z) (limit : option Z)
| GetGenres
| GetPlatforms
| MakeCustomRequest (endpoint query : string).

Definition invoke (c : Call) : M Value :=
  match c with
  | SearchGames query limit => searchGames query limit
  | GetPopularGames limit => getPopularGames limit
  | GetGameById id => getGameById id
  | GetGameBySlug slug => getGameBySlug slug
  | GetGamesByGenre genreId limit => getGamesByGenre genreId limit
  | GetGamesByPlatform platformId limit => getGamesByPlatform platformId limit
  | GetGenres => getGenres
  | GetPlatforms => getPlatforms
  | MakeCustomRequest endpoint query => makeCustomRequest endpoint query
  end.

(** What a method does with its arguments before it calls [makeRequest]:
    the error it throws, or the endpoint and the query text it passes. *)
Definition validate (c : Call) : Completion (string * string) :=
  match c with
  | SearchGames query limit =>
      if negb (truthy_string (trim query)) then Throw ValidationError_query
      else Ok ("games", searchQuery query (limit_or_default limit))
  | GetPopularGames limit => Ok ("games", popularQuery (limit_or_default limit))
  | GetGameById id =>
      if invalid_id id then Throw ValidationError_gameId
      else Ok ("games", byIdQuery id)
  | GetGameBySlug slug =>
      if negb (truthy_string (trim slug)) then Throw ValidationError_slug
      else Ok ("games", bySlugQuery slug)
  | GetGamesByGenre genreId limit =>
      if invalid_id genreId then Throw ValidationError_genreId
      else Ok ("games", byGenreQuery genreId (limit_or_default limit))
  | GetGamesByPlatform platformId limit =>
      if invalid_id platformId then Throw ValidationError_platformId
      else Ok ("games", byPlatformQuery platformId (limit_or_default limit))
  | GetGenres => Ok ("genres", listQuery)
  | GetPlatforms => Ok ("platforms", listQuery)
  | MakeCustomRequest endpoint query => Ok (endpoint, query)
  end.

(** What a method does with the payload that [makeRequest] returns. *)
Definition post (c : Call) (payload : Value) : Completion Value :=
  match c with
  | GetGameById _ | GetGameBySlug _ => firstOrNull payload
  | _ => Ok payload
  end.

(** The states a client and its world can be in: a new client, and then
    any sequence of calls of its public methods, each in any world.
    [isConfigured()] and [getCacheStats()] only read the state. *)
Inductive reachable : State -> Prop :=
| reach_new (IGDB_CLIENT_ID IGDB_CLIENT_SECRET : option string) :
    reachable (mkState (constructor IGDB_CLIENT_ID IGDB_CLIENT_SECRET)
                       0 0 0 [])
| reach_call (env : Env) (c : Call) (st : State) :
    reachable st -> reachable (snd (invoke c env st))
| reach_clearCache (env : Env) (st : State) :
    reachable st -> reachable (snd (clearCache env st)).

End Lookup.

(** ** Vocabulary of the properties *)

(** An unconfigured client holds no token and no cache entry. *)
Definition inv (s : IGDBService) : Prop :=
  isConfigured s = false -> accessToken s = None /\ requestCache s = [].

Definition isDataPost (ev : Event) : bool :=
  match ev with DataPost _ _ _ _ => true | TokenPost _ _ => false end.

(** The number of outbound data requests in a trace. *)
Definition data_requests (tr : list Event) : nat :=
  List.length (filter isDataPost tr).

(** The state after one more reading of the clock. *)
Definition tick (st : State) : State :=
  mkState (this st) (S (ticks st)) (exchanges st) (queries st) (trace st).

(** Whether [makeRequest endpoint query] would answer from the cache. *)
Definition servedFromCache (endpoint query : string) (env : Env) (st : State)
  : bool :=
  match getCachedData (getCacheKey endpoint query) env st with
  | (Ok v, _) => truthy v
  | (Throw _, _) => false
  end.

Definition isArray (v : Value) : bool :=
  match v with VArr _ => true | _ => false end.

(** [Number.isSafeInteger]: the integers that a [number] holds exactly and
    that [Number_toString] prints as JavaScript does. *)
Definition safe_integer (n : Z) : Prop :=
  - 9007199254740992 < n < 9007199254740992.

(** The token field holds a token: it is neither [null] nor empty. *)
Definition holdsToken (s : IGDBService) (tok : string) : Prop :=
  accessToken s = Some tok /\ truthy_string tok = true.

(** ** Two readings of the specification, kept for comparison *)

Section AsWritten.

Variable objectFirst : list (string * Value) -> Completion Value.

(** The fail-fast rule of an unconfigured client, read for every call of
    every authenticated method, whatever its arguments. *)
Definition unconfigured_always_ConfigurationError : Prop :=
  forall (env : Env) (st : State) (c : Call),
    reachable objectFirst st ->
    clientId (this st) = "" \/ clientSecret (this st) = "" ->
    isConfigured (this st) = false
    /\ fst (invoke objectFirst c env st) = Throw ConfigurationError
    /\ trace (snd (invoke objectFirst c env st)) = trace st.

(** The cache guarantee, read for every payload: a first call that goes to
    the network and returns, and the same call within five minutes of the
    stored time stamp, send one data request between them, and the second
    returns what the first returned; from five minutes on the same call
    sends a new request. *)
Definition cache_guarantee_for_every_payload : Prop :=
  forall (env : Env) (st st1 : State) (c : Call) (endpoint query : string)
         (r1 : Value),
    validate c = Ok (endpoint, query) ->
    servedFromCache endpoint query env st = false ->
    invoke objectFirst c env st = (Ok r1, st1) ->
    exists entry,
      Map_get (getCacheKey endpoint query) (requestCache (this st1))
      = Some entry
      /\ data_requests (trace st1) = S (data_requests (trace st))
      /\ (clock env (ticks st1) - timestamp entry < CACHE_DURATION ->
          fst (invoke objectFirst c env st1) = Ok r1
          /\ data_requests (trace (snd (invoke objectFirst c env st1)))
             = S (data_requests (trace st)))
      /\ (CACHE_DURATION <= clock env (ticks st1) - timestamp entry ->
          exists ev rest,
            trace (snd (invoke objectFirst c env st1))
            = (trace st1 ++ ev :: rest)%list).

End AsWritten.

(** ** Example worlds *)

(** A world whose clock advances by one millisecond per reading, whose
    identity provider grants a one-hour token and whose data endpoint
    answers every request with the same outcome. *)
Definition world (answer : Completion Value) : Env :=
  {| clock := fun n => Z.of_nat n;
     idp := fun _ => Ok (mkTokenResponse "token" 3600 "bearer");
     api := fun _ => answer |}.

(** The same with a clock that advances by six minutes per reading. *)
Definition slow_world (answer : Completion Value) : Env :=
  {| clock := fun n => Z.of_nat n * 360000;
     idp := fun _ => Ok (mkTokenResponse "token" 3600 "bearer");
     api := fun _ => answer |}.

(** The same with a clock that starts three hours later. *)
Definition late_world (answer : Completion Value) : Env :=
  {| clock := fun n => 10800000 + Z.of_nat n;
     idp := fun _ => Ok (mkTokenResponse "token" 3600 "bearer");
     api := fun _ => answer |}.

Definition new_client (IGDB_CLIENT_ID IGDB_CLIENT_SECRET : option string)
  : State :=
  mkState (constructor IGDB_CLIENT_ID IGDB_CLIENT_SECRET) 0 0 0 [].

Definition configured_client : State := new_client (Some "id") (Some "secret").

Definition unconfigured_client : State := new_client None (Some "secret").

Definition objectFirst_undefined (fields : list (string * Value))
  : Completion Value := Ok VUndefined.

(** The configured client after [getGenres()] in a world. *)
Definition after_getGenres (env : Env) : State :=
  snd (invoke objectFirst_undefined GetGenres env configured_client).

(** The configured client after [getGenres()], [getPlatforms()] and, more
    than five minutes later, [getGenres()] again. *)
Definition after_three_calls : State :=
  let env := slow_world (Ok (VArr [])) in
  let st1 := snd (invoke objectFirst_undefined GetGenres env configured_client) in
  let st2 := snd (invoke objectFirst_undefined GetPlatforms env st1) in
  snd (invoke objectFirst_undefined GetGenres env st2).

Definition a_record : Value := VObj [("id", VNum 7); ("name", VStr "Zelda")].

(** A world without network: every exchange and every data request is
    rejected with no response. *)
Definition offline_world : Env :=
  {| clock := fun n => Z.of_nat n;
     idp := fun _ => Throw (AxiosError None (Some "ERR_NETWORK"));
     api := fun _ => Throw (AxiosError None (Some "ERR_NETWORK")) |}.

(** A world whose identity provider grants tokens of half a minute. *)
Definition short_world (answer : Completion Value) : Env :=
  {| clock := fun n => Z.of_nat n;
     idp := fun _ => Ok (mkTokenResponse "token" 30 "bearer");
     api := fun _ => answer |}.

(** A string without a colon. *)
Definition colon_free (s : string) : Prop :=
  ~ In ":"%char (list_ascii_of_string s).

(** ** Strings *)

Lemma trimStart_blank (s : string) :
  forallb isWhiteSpace (list_ascii_of_string s) = true -> trimStart s = "".
Proof.
  induction s as [|c s IH]; simpl; [reflexivity|].
  destruct (isWhiteSpace c); simpl; [exact IH | discriminate].
Qed.

Lemma trimEnd_blank (s : string) :
  trimEnd s = "" -> forallb isWhiteSpace (list_ascii_of_string s) = true.
Proof.
  induction s as [|c s IH]; simpl; [reflexivity|].
  destruct (trimEnd s) eqn:E.
  - destruct (isWhiteSpace c); [intros _; simpl; now apply IH | discriminate].
  - discriminate.
Qed.

Lemma trimStart_empty (s : string) :
  trimStart s = "" -> forallb isWhiteSpace (list_ascii_of_string s) = true.
Proof.
  induction s as [|c s IH]; simpl; [reflexivity|].
  destruct (isWhiteSpace c); simpl; [exact IH | discriminate].
Qed.

Lemma trimStart_head (s : string) :
  match trimStart s with
  | EmptyString => True
  | String c _ => isWhiteSpace c = false
  end.
Proof.
  induction s as [|c s IH]; simpl; [exact I|].
  destruct (isWhiteSpace c) eqn:E; [exact IH | exact E].
Qed.

(** A string trims to the empty string exactly when all its characters are
    white space. *)
Lemma trim_empty_iff (s : string) :
  trim s = "" <-> forallb isWhiteSpace (list_ascii_of_string s) = true.
Proof.
  unfold trim. split.
  - intros H. apply trimStart_empty.
    pose proof (trimStart_head s) as Hh.
    destruct (trimStart s) as [|c t]; [reflexivity|].
    apply trimEnd_blank in H. simpl in H.
    rewrite Hh in H. discriminate.
  - intros H. now rewrite trimStart_blank.
Qed.

Lemma truthy_string_false (s : string) : truthy_string s = false <-> s = "".
Proof. destruct s; simpl; split; congruence. Qed.

Lemma truthy_string_true (s : string) : truthy_string s = true <-> s <> "".
Proof. destruct s; simpl; split; congruence. Qed.

Lemma append_assoc (a b c : string) : ((a ++ b) ++ c = a ++ b ++ c)%string.
Proof. induction a as [|ch a IH]; cbn; [reflexivity | now rewrite IH]. Qed.

(** ** The cache as a map *)

Lemma Map_get_set_same {V} (k : string) (v : V) (m : Map V) :
  Map_get k (Map_set k v m) = Some v.
Proof.
  induction m as [|[k' v'] m IH]; simpl.
  - now rewrite String.eqb_refl.
  - destruct (String.eqb k k') eqn:E; simpl; rewrite E; [reflexivity | exact IH].
Qed.

Lemma Map_get_set_other {V} (k k0 : string) (v : V) (m : Map V) :
  k0 <> k -> Map_get k0 (Map_set k v m) = Map_get k0 m.
Proof.
  intros Hne. induction m as [|[k' v'] m IH]; simpl.
  - destruct (String.eqb k0 k) eqn:E; [apply String.eqb_eq in E; contradiction | reflexivity].
  - destruct (String.eqb k k') eqn:E; simpl.
    + apply String.eqb_eq in E. subst k'.
      destruct (String.eqb k0 k) eqn:E0; [apply String.eqb_eq in E0; contradiction | reflexivity].
    + now rewrite IH.
Qed.

Lemma Map_set_not_empty {V} (k : string) (v : V) (m : Map V) :
  Map_set k v m <> [].
Proof. destruct m as [|[k' v'] m]; simpl; [|destruct (String.eqb k k')]; discriminate. Qed.

(** ** Running the monad *)

(** Unfold a method down to the primitive operations of the monad. *)
Ltac unfold_ops :=
  cbv [makeCustomRequest makeRequest getAccessToken tokenIsValid getCachedData
       setCachedData clearCache getCacheStats set_requestCache
       set_tokenExpiry set_accessToken set_this get_this Date_now post_token
       post_data try_catch bind ret throw lift] in *.

(** Split on the innermost test that blocks the evaluation of the goal. *)
Ltac break_match :=
  match goal with
  | |- context [match ?x with _ => _ end] =>
      lazymatch x with
      | context [match _ with _ => _ end] => fail
      | _ => destruct x eqn:?
      end
  | |- context [if ?x then _ else _] =>
      lazymatch x with
      | context [if _ then _ else _] => fail
      | _ => destruct x eqn:?
      end
  end.

Ltac run := unfold_ops; cbn [this ticks exchanges queries trace
                             clientId clientSecret accessToken tokenExpiry
                             requestCache fst snd] in *.

Lemma isConfigured_false (s : IGDBService) :
  isConfigured s = false <-> clientId s = "" \/ clientSecret s = "".
Proof.
  unfold isConfigured. rewrite andb_false_iff, !truthy_string_false. tauto.
Qed.

Lemma configured_guard (s : IGDBService) :
  negb (truthy_string (clientId s)) || negb (truthy_string (clientSecret s))
  = negb (isConfigured s).
Proof. unfold isConfigured. now rewrite negb_andb. Qed.

(** Without credentials and without cache entries, [makeRequest] throws
    before any reading of the clock and any request. *)
Lemma makeRequest_unconfigured (endpoint query : string) (env : Env) (st : State) :
  isConfigured (this st) = false -> requestCache (this st) = [] ->
  makeRequest endpoint query env st = (Throw ConfigurationError, st).
Proof.
  intros Hc He. run. rewrite He. cbn.
  rewrite configured_guard, Hc. reflexivity.
Qed.

Lemma getAccessToken_credentials (env : Env) (st : State) :
  clientId (this (snd (getAccessToken env st))) = clientId (this st) /\
  clientSecret (this (snd (getAccessToken env st))) = clientSecret (this st).
Proof.
  run. repeat (break_match; cbn); auto.
Qed.

Lemma makeRequest_credentials (endpoint query : string) (env : Env) (st : State) :
  clientId (this (snd (makeRequest endpoint query env st))) = clientId (this st) /\
  clientSecret (this (snd (makeRequest endpoint query env st))) = clientSecret (this st).
Proof.
  run. repeat (break_match; cbn); auto.
Qed.

Lemma isConfigured_credentials (s s' : IGDBService) :
  clientId s' = clientId s -> clientSecret s' = clientSecret s ->
  isConfigured s' = isConfigured s.
Proof. unfold isConfigured. now intros -> ->. Qed.

Lemma makeRequest_inv (endpoint query : string) (env : Env) (st : State) :
  inv (this st) -> inv (this (snd (makeRequest endpoint query env st))).
Proof.
  intros Hinv.
  destruct (isConfigured (this st)) eqn:Hc.
  - intros Hc'. exfalso.
    destruct (makeRequest_credentials endpoint query env st) as [Hi Hs].
    rewrite (isConfigured_credentials _ _ Hi Hs) in Hc'. congruence.
  - destruct (Hinv Hc) as [_ He].
    rewrite makeRequest_unconfigured by assumption. exact Hinv.
Qed.

Lemma clearCache_inv (env : Env) (st : State) :
  inv (this st) -> inv (this (snd (clearCache env st))).
Proof.
  intros Hinv Hc. run. split; [|reflexivity].
  now apply Hinv.
Qed.

Lemma constructor_inv (id secret : option string) : inv (constructor id secret).
Proof. intros _. now split. Qed.

Lemma data_requests_app (a b : list Event) :
  data_requests (a ++ b) = (data_requests a + data_requests b)%nat.
Proof. unfold data_requests. now rewrite filter_app, length_app. Qed.

Lemma guard_configured (i s : string) (a : option string) (x : Z)
      (c : Map CacheEntry) :
  negb (truthy_string i) || negb (truthy_string s) = false ->
  isConfigured (mkService i s a x c) = true.
Proof.
  unfold isConfigured; cbn. destruct (truthy_string i), (truthy_string s);
    cbn; congruence.
Qed.

(** Follow every path through a method; [extra] rewrites with what is
    known about the world before a test on it is split. *)
Ltac by_cases extra :=
  repeat (first [extra | break_match]; cbn).

(** Close what is left at the end of a path. *)
Ltac finish :=
  cbn in *; unfold data_requests in *;
  rewrite ?filter_app, ?length_app; cbn;
  try lia; try congruence;
  repeat match goal with
         | |- _ /\ _ => split
         | |- isConfigured _ = true => apply guard_configured; assumption
         | |- exists _, _ => rewrite <- ?app_assoc; cbn; eauto
         | |- _ => reflexivity || assumption || lia || congruence
         end.

(** A cache entry that is fresh and truthy is returned at the cost of one
    reading of the clock. *)
Lemma makeRequest_hit (endpoint query : string) (env : Env) (st : State)
      (entry : CacheEntry) :
  Map_get (getCacheKey endpoint query) (requestCache (this st)) = Some entry ->
  truthy (data entry) = true ->
  clock env (ticks st) - timestamp entry < CACHE_DURATION ->
  makeRequest endpoint query env st = (Ok (data entry), tick st).
Proof.
  intros Hget Ht Hlt. change CACHE_DURATION with 300000 in Hlt.
  apply Z.ltb_lt in Hlt.
  destruct st as [[i s a x c] tk ex qs tr]; run.
  rewrite Hget; cbn. rewrite Hlt; cbn. now rewrite Ht.
Qed.

(** What [servedFromCache] says in terms of the entry. *)
Lemma servedFromCache_true (endpoint query : string) (env : Env) (st : State) :
  servedFromCache endpoint query env st = true ->
  exists entry,
    Map_get (getCacheKey endpoint query) (requestCache (this st)) = Some entry
    /\ truthy (data entry) = true
    /\ clock env (ticks st) - timestamp entry < CACHE_DURATION.
Proof.
  unfold servedFromCache.
  destruct st as [[i s a x c] tk ex qs tr]; run.
  destruct (Map_get (getCacheKey endpoint query) c) as [entry|]; cbn;
    [|discriminate].
  destruct (clock env tk - timestamp entry <? 300000) eqn:E; cbn;
    [|discriminate].
  intros Ht. exists entry. change CACHE_DURATION with 300000.
  apply Z.ltb_lt in E. auto.
Qed.

Lemma servedFromCache_falsy (endpoint query : string) (env : Env) (st : State)
      (entry : CacheEntry) :
  Map_get (getCacheKey endpoint query) (requestCache (this st)) = Some entry ->
  truthy (data entry) = false ->
  servedFromCache endpoint query env st = false.
Proof.
  intros Hget Hf. unfold servedFromCache.
  destruct st as [[i s a x c] tk ex qs tr]; run.
  rewrite Hget; cbn. now destruct (_ <? _); cbn.
Qed.

Lemma servedFromCache_stale (endpoint query : string) (env : Env) (st : State)
      (entry : CacheEntry) :
  Map_get (getCacheKey endpoint query) (requestCache (this st)) = Some entry ->
  CACHE_DURATION <= clock env (ticks st) - timestamp entry ->
  servedFromCache endpoint query env st = false.
Proof.
  intros Hget Hge. change CACHE_DURATION with 300000 in Hge.
  apply Z.ltb_ge in Hge. unfold servedFromCache.
  destruct st as [[i s a x c] tk ex qs tr]; run.
  rewrite Hget; cbn. now rewrite Hge.
Qed.

Lemma servedFromCache_absent (endpoint query : string) (env : Env) (st : State) :
  Map_get (getCacheKey endpoint query) (requestCache (this st)) = None ->
  servedFromCache endpoint query env st = false.
Proof.
  intros Hget. unfold servedFromCache.
  destruct st as [[i s a x c] tk ex qs tr]; run.
  now rewrite Hget.
Qed.

(** A configured client that cannot answer from the cache goes to the
    network: the call sends at least one request, and exactly one data
    request unless the token exchange fails. *)
Lemma makeRequest_miss (endpoint query : string) (env : Env) (st : State) :
  isConfigured (this st) = true ->
  servedFromCache endpoint query env st = false ->
  (exists ev rest,
      trace (snd (makeRequest endpoint query env st))
      = (trace st ++ ev :: rest)%list)
  /\ (fst (makeRequest endpoint query env st) = Throw AuthenticationError_exchange
      \/ data_requests (trace (snd (makeRequest endpoint query env st)))
         = S (data_requests (trace st))).
Proof.
  intros Hc. rewrite <- negb_false_iff, <- configured_guard in Hc.
  unfold servedFromCache.
  destruct st as [[i s a x c] tk ex qs tr]; run.
  by_cases fail; try discriminate; intros _; try congruence;
    (split; [finish | first [left; reflexivity | right; finish]]).
Qed.

(** Without a token, a configured client starts with a token exchange. *)
Lemma getAccessToken_without_token (env : Env) (st : State) :
  isConfigured (this st) = true ->
  accessToken (this st) = None ->
  trace (snd (getAccessToken env st))
  = (trace st ++ [TokenPost (clientId (this st)) (clientSecret (this st))])%list.
Proof.
  intros Hc Hn. rewrite <- negb_false_iff, <- configured_guard in Hc.
  destruct st as [[i s a x c] tk ex qs tr]; run. subst a. rewrite Hc; cbn.
  destruct (idp env ex); reflexivity.
Qed.

Lemma makeRequest_without_token (endpoint query : string) (env : Env)
      (st : State) :
  isConfigured (this st) = true ->
  accessToken (this st) = None ->
  servedFromCache endpoint query env st = false ->
  exists rest,
    trace (snd (makeRequest endpoint query env st))
    = (trace st ++ TokenPost (clientId (this st)) (clientSecret (this st))
         :: rest)%list.
Proof.
  intros Hc Hn. rewrite <- negb_false_iff, <- configured_guard in Hc.
  unfold servedFromCache.
  destruct st as [[i s a x c] tk ex qs tr]; run. subst a.
  by_cases fail; try discriminate; intros _; finish.
Qed.

(** A call that was not answered from the cache and returned a payload has
    sent exactly one data request and has stored the payload, stamped with
    its last reading of the clock. *)
Lemma makeRequest_fetched (endpoint query : string) (env : Env) (st st' : State)
      (payload : Value) :
  servedFromCache endpoint query env st = false ->
  makeRequest endpoint query env st = (Ok payload, st') ->
  Map_get (getCacheKey endpoint query) (requestCache (this st'))
  = Some (mkEntry payload (clock env (Nat.pred (ticks st'))))
  /\ data_requests (trace st') = S (data_requests (trace st))
  /\ isConfigured (this st') = true
  /\ api env (queries st) = Ok payload.
Proof.
  unfold servedFromCache.
  destruct st as [[i s a x c] tk ex qs tr]; run.
  by_cases fail; try discriminate; intros _ Hrun; inversion Hrun; subst;
    cbn; rewrite ?Map_get_set_same; finish.
Qed.

Section Properties.

Variable objectFirst : list (string * Value) -> Completion Value.

#[local] Abbreviation invoke := (invoke objectFirst).
#[local] Abbreviation post := (post objectFirst).
#[local] Abbreviation reachable := (reachable objectFirst).

(** Every method validates its arguments, then calls [makeRequest], then
    post-processes the payload without touching the state. *)
Lemma invoke_validate (c : Call) (env : Env) (st : State) :
  invoke c env st =
  match validate c with
  | Throw e => (Throw e, st)
  | Ok (endpoint, query) =>
      match makeRequest endpoint query env st with
      | (Ok payload, st') => (post c payload, st')
      | (Throw e, st') => (Throw e, st')
      end
  end.
Proof.
  destruct c; cbn [invoke validate post];
    cbv [searchGames getPopularGames getGameById getGameBySlug getGamesByGenre
         getGamesByPlatform getGenres getPlatforms makeCustomRequest];
    repeat match goal with
           | |- context [if ?b then _ else _] => destruct b
           end;
    cbv [throw bind lift]; try reflexivity;
    match goal with
    | |- context [makeRequest ?e ?q env st] =>
        destruct (makeRequest e q env st) as [[p|e'] st']; reflexivity
    end.
Qed.

Lemma invoke_inv (c : Call) (env : Env) (st : State) :
  inv (this st) -> inv (this (snd (invoke c env st))).
Proof.
  intros Hinv. rewrite invoke_validate.
  destruct (validate c) as [[endpoint query]|e]; [|exact Hinv].
  pose proof (makeRequest_inv endpoint query env st Hinv) as H.
  destruct (makeRequest endpoint query env st) as [[p|e'] st']; exact H.
Qed.

(** In every reachable state an unconfigured client holds no token and no
    cache entry. *)
Lemma reachable_inv (st : State) : reachable st -> inv (this st).
Proof.
  induction 1.
  - apply constructor_inv.
  - now apply invoke_inv.
  - now apply clearCache_inv.
Qed.


Lemma holdsToken_configured (st : State) (tok : string) :
  reachable st -> holdsToken (this st) tok -> isConfigured (this st) = true.
Proof.
  intros Hr [Ht _]. destruct (isConfigured (this st)) eqn:Hc; [reflexivity|].
  destruct (reachable_inv st Hr Hc) as [Hn _]. congruence.
Qed.

(** C1. In every reachable state: (1) while the clock reads strictly less
    than the stored expiry, [getAccessToken] returns the held token, reads
    the clock once and does nothing else: no outbound request, no change of
    the client; (2) from the expiry on, the held token is not reused: the
    call sends a token exchange; (3) whenever a call performs a token
    exchange and the exchange succeeds, the call returns the token of the
    response, stores it, and sets the expiry to
    [now + expires_in * 1000 - 60000], where [now] is the clock reading the
    call takes when the response has arrived (its last one). *)
Theorem getAccessToken_reuse_and_refresh (env : Env) (st : State) :
  reachable st ->
  (forall tok,
      holdsToken (this st) tok ->
      clock env (ticks st) < tokenExpiry (this st) ->
      getAccessToken env st = (Ok tok, tick st))
  /\ (forall tok,
      holdsToken (this st) tok ->
      tokenExpiry (this st) <= clock env (ticks st) ->
      trace (snd (getAccessToken env st))
      = (trace st ++ [TokenPost (clientId (this st)) (clientSecret (this st))])%list)
  /\ (forall resp r st',
      getAccessToken env st = (r, st') ->
      exchanges st' = S (exchanges st) ->
      idp env (exchanges st) = Ok resp ->
      r = Ok (access_token resp)
      /\ accessToken (this st') = Some (access_token resp)
      /\ tokenExpiry (this st')
         = clock env (Nat.pred (ticks st')) + expires_in resp * 1000 - 60000
      /\ trace st'
         = (trace st ++ [TokenPost (clientId (this st)) (clientSecret (this st))])%list).
Proof.
  intros Hr. split; [|split].
  - intros tok Hh Hlt.
    pose proof (holdsToken_configured st tok Hr Hh) as Hc.
    destruct Hh as [Ht Hne]. apply Z.ltb_lt in Hlt.
    rewrite <- negb_false_iff, <- configured_guard in Hc.
    destruct st as [[i s a x c] tk ex qs tr]; run. subst a.
    rewrite Hc; cbn. rewrite Hne; cbn. now rewrite Hlt.
  - intros tok Hh Hge.
    pose proof (holdsToken_configured st tok Hr Hh) as Hc.
    destruct Hh as [Ht Hne]. apply Z.ltb_ge in Hge.
    rewrite <- negb_false_iff, <- configured_guard in Hc.
    destruct st as [[i s a x c] tk ex qs tr]; run. subst a.
    rewrite Hc; cbn. rewrite Hne; cbn. rewrite Hge; cbn.
    destruct (idp env ex); reflexivity.
  - intros resp r st' Hrun Hex Hidp.
    destruct st as [[i s a x c] tk ex qs tr]; revert Hrun Hex; run.
    repeat (first [rewrite Hidp | break_match]; cbn);
      intros Hrun Hex; inversion Hrun; subst; cbn in *; try lia; auto.
Qed.


(** C3. When a call of [makeRequest] sends its data request and the request
    is rejected with response status 401: the call throws
    [AuthenticationError]; the token is cleared ([null]) and its expiry is
    reset to 0; the call has sent exactly one data request (it is not
    retried) and has stored nothing in the cache. What follows must
    authenticate again: the next [getAccessToken], in any world, sends a
    token exchange, and so does the next [makeRequest] that is not answered
    from the cache, before anything else. *)
Theorem makeRequest_401_clears_token
        (endpoint query : string) (env : Env) (st st' : State)
        (r : Completion Value) (error : Exn) :
  makeRequest endpoint query env st = (r, st') ->
  queries st' = S (queries st) ->
  api env (queries st) = Throw error ->
  response_status error = Some 401 ->
  r = Throw AuthenticationError
  /\ accessToken (this st') = None
  /\ tokenExpiry (this st') = 0
  /\ data_requests (trace st') = S (data_requests (trace st))
  /\ requestCache (this st') = requestCache (this st)
  /\ (forall env',
        trace (snd (getAccessToken env' st'))
        = (trace st'
             ++ [TokenPost (clientId (this st')) (clientSecret (this st'))])%list)
  /\ (forall env' endpoint' query',
        servedFromCache endpoint' query' env' st' = false ->
        exists rest,
          trace (snd (makeRequest endpoint' query' env' st'))
          = (trace st'
               ++ TokenPost (clientId (this st')) (clientSecret (this st'))
               :: rest)%list).
Proof.
  intros Hrun Hq Hapi Hst.
  assert (H : r = Throw AuthenticationError
              /\ accessToken (this st') = None
              /\ tokenExpiry (this st') = 0
              /\ data_requests (trace st') = S (data_requests (trace st))
              /\ requestCache (this st') = requestCache (this st)
              /\ isConfigured (this st') = true).
  { destruct st as [[i s a x c] tk ex qs tr]; revert Hrun Hq; run.
    by_cases ltac:(first [rewrite Hapi | rewrite Hst]);
      intros Hrun Hq; inversion Hrun; subst; finish. }
  destruct H as (Hr & Htok & Hexp & Hdata & Hcache & Hconf).
  repeat split; try assumption.
  - intros env'. now apply getAccessToken_without_token.
  - intros env' endpoint' query'. now apply makeRequest_without_token.
Qed.

(** C5. When a call of [makeRequest] sends its data request and the request
    is rejected with response status 429, the call throws [RateLimitError]
    and leaves the cache as it was: no entry is added or changed, and in
    particular the entry of the key of this request, if any, is the one from
    before the call. *)
Theorem makeRequest_429_leaves_cache
        (endpoint query : string) (env : Env) (st st' : State)
        (r : Completion Value) (error : Exn) :
  makeRequest endpoint query env st = (r, st') ->
  queries st' = S (queries st) ->
  api env (queries st) = Throw error ->
  response_status error = Some 429 ->
  r = Throw RateLimitError
  /\ requestCache (this st') = requestCache (this st)
  /\ Map_get (getCacheKey endpoint query) (requestCache (this st'))
     = Map_get (getCacheKey endpoint query) (requestCache (this st)).
Proof.
  intros Hrun Hq Hapi Hst.
  destruct st as [[i s a x c] tk ex qs tr]; revert Hrun Hq; run.
  by_cases ltac:(first [rewrite Hapi | rewrite Hst]);
    intros Hrun Hq; inversion Hrun; subst; finish.
Qed.

(** The cache is written on success only: a call that throws leaves it as
    it was. *)
Lemma makeRequest_throw_leaves_cache
      (endpoint query : string) (env : Env) (st st' : State) (e : Exn) :
  makeRequest endpoint query env st = (Throw e, st') ->
  requestCache (this st') = requestCache (this st).
Proof.
  intros Hrun.
  destruct st as [[i s a x c] tk ex qs tr]; revert Hrun; run.
  by_cases fail; intros Hrun; inversion Hrun; subst; finish.
Qed.

(** C8. The cache key is the endpoint, a colon and the query text; for a
    fixed endpoint, two different query texts have two different keys. *)
Theorem getCacheKey_injective_in_query (endpoint query1 query2 : string) :
  query1 <> query2 ->
  getCacheKey endpoint query1 = (endpoint ++ ":" ++ query1)%string
  /\ getCacheKey endpoint query1 <> getCacheKey endpoint query2.
Proof.
  intros Hne. split; [reflexivity|].
  unfold getCacheKey. intros Heq. apply Hne.
  induction endpoint as [|ch endpoint IH]; cbn in Heq.
  - now inversion Heq.
  - inversion Heq. auto.
Qed.

(** The colon does not separate the two parts: keys of different endpoints
    can coincide. *)
Example getCacheKey_across_endpoints :
  getCacheKey "games:x" "y" = getCacheKey "games" "x:y".
Proof. reflexivity. Qed.

(** C9. [clearCache()] empties the cache at once and does nothing else:
    [getCacheStats()] right afterwards reports size 0 and no key. In a
    reachable state, a query that had an entry in the cache before the
    clear is not answered from the cache afterwards: [makeRequest] for it,
    in any world, sends a new outbound request. *)
Theorem clearCache_empties (env : Env) (st : State) :
  reachable st ->
  snd (clearCache env st)
  = mkState (mkService (clientId (this st)) (clientSecret (this st))
                       (accessToken (this st)) (tokenExpiry (this st)) [])
            (ticks st) (exchanges st) (queries st) (trace st)
  /\ (forall env', fst (getCacheStats env' (snd (clearCache env st)))
                   = Ok (0, []))
  /\ (forall endpoint query entry env',
        Map_get (getCacheKey endpoint query) (requestCache (this st))
        = Some entry ->
        servedFromCache endpoint query env' (snd (clearCache env st)) = false
        /\ exists ev rest,
            trace (snd (makeRequest endpoint query env'
                                    (snd (clearCache env st))))
            = (trace st ++ ev :: rest)%list).
Proof.
  intros Hr. split; [reflexivity|]. split; [reflexivity|].
  intros endpoint query entry env' Hget.
  assert (Hc : isConfigured (this st) = true).
  { destruct (isConfigured (this st)) eqn:Hc; [reflexivity|].
    destruct (reachable_inv st Hr Hc) as [_ He]. rewrite He in Hget.
    discriminate. }
  assert (Hs : servedFromCache endpoint query env' (snd (clearCache env st))
               = false) by (now apply servedFromCache_absent).
  split; [exact Hs|].
  now apply (makeRequest_miss endpoint query env' (snd (clearCache env st))).
Qed.

(** C10. The cache answers by the truthiness of the stored payload, not by
    the presence of an entry. In a reachable state with an entry for the
    key of a request: if the stored payload is falsy ([null], [false], 0,
    the empty string), [makeRequest] is not answered from the cache however
    recent the entry is, and sends a new outbound request; if the stored
    payload is truthy and the entry is younger than five minutes, the
    payload is returned with no outbound request. Every array, the empty
    one included, is truthy. *)
Theorem makeRequest_cache_by_truthiness
        (endpoint query : string) (env : Env) (st : State)
        (entry : CacheEntry) :
  reachable st ->
  Map_get (getCacheKey endpoint query) (requestCache (this st)) = Some entry ->
  (truthy (data entry) = false ->
   servedFromCache endpoint query env st = false
   /\ exists ev rest,
       trace (snd (makeRequest endpoint query env st))
       = (trace st ++ ev :: rest)%list)
  /\ (truthy (data entry) = true ->
      clock env (ticks st) - timestamp entry < CACHE_DURATION ->
      makeRequest endpoint query env st = (Ok (data entry), tick st))
  /\ (forall items, truthy (VArr items) = true)
  /\ (forall v, truthy v = false <->
                 v = VNull \/ v = VUndefined \/ v = VBool false
                 \/ v = VNum 0 \/ v = VStr "").
Proof.
  intros Hr Hget.
  assert (Hc : isConfigured (this st) = true).
  { destruct (isConfigured (this st)) eqn:Hc; [reflexivity|].
    destruct (reachable_inv st Hr Hc) as [_ He]. rewrite He in Hget.
    discriminate. }
  split; [|split; [|split]].
  - intros Hf.
    assert (Hs : servedFromCache endpoint query env st = false)
      by (now apply servedFromCache_falsy with entry).
    split; [exact Hs|]. now apply makeRequest_miss.
  - intros Ht Hlt. now apply makeRequest_hit.
  - reflexivity.
  - intros v. split.
    + destruct v as [| |[|]|n|[|]| |]; cbn; try discriminate; auto.
      unfold truthy_number. rewrite negb_false_iff, Z.eqb_eq.
      intros ->. auto 6.
    + intros [H|[H|[H|[H|H]]]]; subst; reflexivity.
Qed.


Lemma makeRequest_data_event
      (endpoint query : string) (env : Env) (st st' : State)
      (r : Completion Value) :
  makeRequest endpoint query env st = (r, st') ->
  queries st' = S (queries st) ->
  (exists pre bearer,
      trace st'
      = (pre ++ [DataPost endpoint query (clientId (this st)) bearer])%list)
  /\ (forall payload, api env (queries st) = Ok payload -> r = Ok payload).
Proof.
  intros Hrun Hq.
  destruct st as [[i s a x c] tk ex qs tr]; revert Hrun Hq; run.
  by_cases fail; intros Hrun Hq; inversion Hrun; subst; cbn in *; try lia;
    (split; [eauto | intros payload Hp; congruence]).
Qed.

Lemma limit_line_clamped (limit : Z) :
  limit_line limit = limit_line (Z.min limit 50).
Proof. unfold limit_line. now rewrite <- Z.min_assoc, Z.min_id. Qed.

Lemma searchQuery_clamped (query : string) (limit : Z) :
  searchQuery query limit = searchQuery query (Z.min limit 50).
Proof. unfold searchQuery. now rewrite <- limit_line_clamped. Qed.

(** C6. [searchGames] throws [ValidationError] for every query that trims to
    the empty string (all its characters are white space), without touching
    the client or the network. For every other query it passes the
    validation and is [makeRequest] for the endpoint [games] with the query
    text that names the query as it is and carries the line [limit n;],
    where [n] is [min(limit, 50)], the limit being 20 when it is not given:
    the data request the call sends, if it sends one, carries this text,
    and when the data endpoint answers it with a payload the call returns
    that payload. For [zelda] the text reads [limit 50;] with the limit
    1000, [limit 10;] with the limit 10 and [limit 20;] without a limit. *)
Theorem searchGames_validates_and_clamps
        (query : string) (limit : option Z) (env : Env) (st : State) :
  (trim query = "" ->
   forallb isWhiteSpace (list_ascii_of_string query) = true
   /\ searchGames query limit env st = (Throw ValidationError_query, st))
  /\ (trim query <> "" ->
      safe_integer (limit_or_default limit) ->
      let text :=
        (nl ++ "      fields name,slug,summary,storyline,rating,rating_count,first_release_date,cover.url,genres.name,platforms.name;" ++ nl
         ++ "      where version_parent = null & category = 0 & name ~ *"
         ++ dquote ++ query ++ dquote ++ "*;" ++ nl
         ++ "      limit "
         ++ Number_toString (Z.min (limit_or_default limit) 50) ++ ";" ++ nl
         ++ "      sort rating desc;" ++ nl
         ++ "    ")%string in
      searchGames query limit env st = makeRequest "games" text env st
      /\ forall r st',
          searchGames query limit env st = (r, st') ->
          queries st' = S (queries st) ->
          (exists pre bearer,
              trace st'
              = (pre ++ [DataPost "games" text (clientId (this st)) bearer])%list)
          /\ (forall payload,
                 api env (queries st) = Ok payload -> r = Ok payload))
  /\ (forall n limit',
         (limit' = Some 1000 /\ n = "50")
         \/ (limit' = Some 50 /\ n = "50")
         \/ (limit' = Some 10 /\ n = "10")
         \/ (limit' = Some 0 /\ n = "0")
         \/ (limit' = None /\ n = "20") ->
         searchGames "zelda" limit' env st
         = makeRequest "games"
             (nl ++ "      fields name,slug,summary,storyline,rating,rating_count,first_release_date,cover.url,genres.name,platforms.name;" ++ nl
              ++ "      where version_parent = null & category = 0 & name ~ *"
              ++ dquote ++ "zelda" ++ dquote ++ "*;" ++ nl
              ++ "      limit " ++ n ++ ";" ++ nl
              ++ "      sort rating desc;" ++ nl
              ++ "    ")%string env st).
Proof.
  split; [|split].
  - intros Hb. split; [now apply trim_empty_iff|].
    unfold searchGames. now rewrite Hb.
  - intros Hnb _ text.
    assert (Heq : searchGames query limit env st
                  = makeRequest "games" text env st).
    { unfold searchGames. apply truthy_string_true in Hnb. rewrite Hnb.
      cbn [negb]. f_equal.
      cbv [searchQuery limit_line template line List.map String.concat
           fields_search].
      repeat rewrite append_assoc. reflexivity. }
    split; [exact Heq|].
    intros r st' Hrun Hq. rewrite Heq in Hrun.
    now apply (makeRequest_data_event "games" text env st st' r).
  - intros n limit' [[-> ->]|[[-> ->]|[[-> ->]|[[-> ->]|[-> ->]]]]];
      reflexivity.
Qed.

(** C7. [getGameById] throws [ValidationError] for every id that is not
    positive, and [getGameBySlug] for every slug that trims to the empty
    string, without touching the client or the network. For a positive id
    (a slug that does not trim to the empty string): when [makeRequest]
    returns an array of records, the method returns [null] if the array is
    empty and its first record otherwise, never the array, so that the
    result is an array only if that first record is one; when [makeRequest]
    throws, the method throws the same error; and when the call sends a
    data request that the data endpoint answers with an array of records,
    the call returns [null] for the empty array and the first record
    otherwise. *)
Theorem getGameById_getGameBySlug_single_record
        (id : Z) (slug : string) (env : Env) (st : State) :
  (id <= 0 -> getGameById objectFirst id env st
              = (Throw ValidationError_gameId, st))
  /\ (trim slug = "" -> getGameBySlug objectFirst slug env st
                        = (Throw ValidationError_slug, st))
  /\ (0 < id ->
      forall st',
        (forall records,
            makeRequest "games" (byIdQuery id) env st = (Ok (VArr records), st') ->
            getGameById objectFirst id env st
            = (Ok (match records with [] => VNull | game :: _ => game end), st')
            /\ (Forall (fun game => isArray game = false) records ->
                forall v, getGameById objectFirst id env st = (Ok v, st') ->
                          isArray v = false))
        /\ (forall e,
               makeRequest "games" (byIdQuery id) env st = (Throw e, st') ->
               getGameById objectFirst id env st = (Throw e, st'))
        /\ (forall r records,
               getGameById objectFirst id env st = (r, st') ->
               queries st' = S (queries st) ->
               api env (queries st) = Ok (VArr records) ->
               r = Ok (match records with [] => VNull | game :: _ => game end)))
  /\ (trim slug <> "" ->
      forall st',
        (forall records,
            makeRequest "games" (bySlugQuery slug) env st
            = (Ok (VArr records), st') ->
            getGameBySlug objectFirst slug env st
            = (Ok (match records with [] => VNull | game :: _ => game end), st')
            /\ (Forall (fun game => isArray game = false) records ->
                forall v, getGameBySlug objectFirst slug env st = (Ok v, st') ->
                          isArray v = false))
        /\ (forall e,
               makeRequest "games" (bySlugQuery slug) env st = (Throw e, st') ->
               getGameBySlug objectFirst slug env st = (Throw e, st'))
        /\ (forall r records,
               getGameBySlug objectFirst slug env st = (r, st') ->
               queries st' = S (queries st) ->
               api env (queries st) = Ok (VArr records) ->
               r = Ok (match records with [] => VNull | game :: _ => game end))).
Proof.
  assert (Hfirst : forall records st0 (m : M Value),
             m env st = (Ok (VArr records), st0) ->
             (games <- m ;; lift (firstOrNull objectFirst games)) env st
             = (Ok (match records with [] => VNull | game :: _ => game end), st0)).
  { intros records st0 m Hm. cbv [bind lift]. rewrite Hm.
    destruct records; reflexivity. }
  assert (Hthrow : forall e st0 (m : M Value),
             m env st = (Throw e, st0) ->
             (games <- m ;; lift (firstOrNull objectFirst games)) env st
             = (Throw e, st0)).
  { intros e st0 m Hm. cbv [bind lift]. now rewrite Hm. }
  assert (Hnot : forall records v,
             Forall (fun game => isArray game = false) records ->
             (match records with [] => VNull | game :: _ => game end) = v ->
             isArray v = false).
  { intros records v Hall <-. destruct Hall; [reflexivity | assumption]. }
  assert (Hup : forall endpoint query r st0 records,
             (games <- makeRequest endpoint query ;;
              lift (firstOrNull objectFirst games)) env st = (r, st0) ->
             queries st0 = S (queries st) ->
             api env (queries st) = Ok (VArr records) ->
             r = Ok (match records with [] => VNull | game :: _ => game end)).
  { intros endpoint query r st0 records Hrun Hq Hapi.
    cbv [bind lift] in Hrun.
    destruct (makeRequest endpoint query env st) as [r0 st1] eqn:Hm.
    assert (Hst : st1 = st0) by (destruct r0; now inversion Hrun).
    subst st1.
    destruct (makeRequest_data_event endpoint query env st st0 r0 Hm Hq)
      as [_ Hpayload].
    rewrite (Hpayload _ Hapi) in Hrun.
    destruct records; now inversion Hrun. }
  split; [|split; [|split]].
  - intros Hid. unfold getGameById, invalid_id.
    apply Z.leb_le in Hid. rewrite Hid, orb_true_r. reflexivity.
  - intros Hb. unfold getGameBySlug. now rewrite Hb.
  - intros Hid st'.
    assert (Hv : invalid_id id = false).
    { unfold invalid_id, truthy_number.
      apply orb_false_iff. split.
      - apply negb_false_iff, negb_true_iff, Z.eqb_neq. lia.
      - apply Z.leb_gt. lia. }
    unfold getGameById. rewrite Hv. split; [|split].
    + intros records Hm. rewrite (Hfirst _ _ _ Hm). split; [reflexivity|].
      intros Hall v Hv'. inversion Hv'. now apply (Hnot records).
    + intros e Hm. now apply Hthrow.
    + intros r records. apply Hup.
  - intros Hnb st'. apply truthy_string_true in Hnb.
    unfold getGameBySlug. rewrite Hnb. cbn [negb]. split; [|split].
    + intros records Hm. rewrite (Hfirst _ _ _ Hm). split; [reflexivity|].
      intros Hall v Hv'. inversion Hv'. now apply (Hnot records).
    + intros e Hm. now apply Hthrow.
    + intros r records. apply Hup.
Qed.

Lemma validate_throws_ValidationError (c : Call) (e : Exn) :
  validate c = Throw e -> isValidationError e = true.
Proof.
  destruct c; cbn;
    repeat match goal with
           | |- context [if ?b then _ else _] => destruct b
           end;
    intros H; inversion H; reflexivity.
Qed.

(** C4, as the code has it. In every reachable state of a client one of
    whose credentials is empty, [isConfigured()] is false, and every call
    of an authenticated method fails with no reading of the clock, no
    outbound request and no change of the client: with [ConfigurationError]
    when its arguments pass the validation of the method, and with the
    [ValidationError] of the method when they do not, the arguments being
    validated first. *)
Theorem unconfigured_fails_fast (env : Env) (st : State) (c : Call) :
  reachable st ->
  clientId (this st) = "" \/ clientSecret (this st) = "" ->
  isConfigured (this st) = false
  /\ (forall endpoint query,
        validate c = Ok (endpoint, query) ->
        invoke c env st = (Throw ConfigurationError, st))
  /\ (forall e,
        validate c = Throw e ->
        isValidationError e = true /\ invoke c env st = (Throw e, st)).
Proof.
  intros Hr Hcred. apply isConfigured_false in Hcred.
  destruct (reachable_inv st Hr Hcred) as [_ Hempty].
  split; [exact Hcred|]. split.
  - intros endpoint query Hv. rewrite invoke_validate, Hv.
    now rewrite makeRequest_unconfigured.
  - intros e Hv. split; [now apply validate_throws_ValidationError with c|].
    now rewrite invoke_validate, Hv.
Qed.

Lemma invoke_of_makeRequest (c : Call) (endpoint query : string)
      (env : Env) (st : State) :
  validate c = Ok (endpoint, query) ->
  snd (invoke c env st) = snd (makeRequest endpoint query env st)
  /\ (forall e, fst (makeRequest endpoint query env st) = Throw e ->
                fst (invoke c env st) = Throw e)
  /\ (forall payload, fst (makeRequest endpoint query env st) = Ok payload ->
                      fst (invoke c env st) = post c payload).
Proof.
  intros Hv. rewrite invoke_validate, Hv.
  destruct (makeRequest endpoint query env st) as [[p|e'] st']; cbn;
    repeat split; congruence.
Qed.

(** C2, as the code has it. Take a call of a method whose arguments pass
    its validation, that is not answered from the cache and returns. Then
    the call has sent exactly one data request and has stored the payload
    under the key of the request, with the time of storing. A second call
    with the same arguments (1) sends no request and returns the identical
    result, at the cost of one reading of the clock, if the stored payload
    is truthy (every array is) and [now - timestamp] is less than five
    minutes; (2) sends a new outbound request if [now - timestamp] is five
    minutes or more: exactly one data request, unless the token has to be
    exchanged first and the exchange fails. *)
Theorem cache_guarantee_for_truthy_payloads
        (env : Env) (st st1 : State) (c : Call) (endpoint query : string)
        (r1 : Value) :
  validate c = Ok (endpoint, query) ->
  servedFromCache endpoint query env st = false ->
  invoke c env st = (Ok r1, st1) ->
  exists entry,
    Map_get (getCacheKey endpoint query) (requestCache (this st1)) = Some entry
    /\ post c (data entry) = Ok r1
    /\ timestamp entry = clock env (Nat.pred (ticks st1))
    /\ data_requests (trace st1) = S (data_requests (trace st))
    /\ (truthy (data entry) = true ->
        clock env (ticks st1) - timestamp entry < CACHE_DURATION ->
        invoke c env st1 = (Ok r1, tick st1))
    /\ (CACHE_DURATION <= clock env (ticks st1) - timestamp entry ->
        (exists ev rest,
            trace (snd (invoke c env st1)) = (trace st1 ++ ev :: rest)%list)
        /\ (fst (invoke c env st1) = Throw AuthenticationError_exchange
            \/ data_requests (trace (snd (invoke c env st1)))
               = S (data_requests (trace st1)))).
Proof.
  intros Hv Hmiss Hrun.
  rewrite invoke_validate, Hv in Hrun.
  destruct (makeRequest endpoint query env st) as [[p|e'] st'] eqn:Hm;
    [|discriminate].
  inversion Hrun as [[Hpost Hst]]. subst st'.
  destruct (makeRequest_fetched endpoint query env st st1 p Hmiss Hm)
    as (Hget & Hdata & Hconf & _).
  exists (mkEntry p (clock env (Nat.pred (ticks st1)))).
  cbn [data timestamp].
  repeat split; try assumption.
  - intros Ht Hlt. rewrite invoke_validate, Hv.
    rewrite (makeRequest_hit endpoint query env st1 _ Hget Ht Hlt).
    cbn [data]. now rewrite Hpost.
  - destruct (invoke_of_makeRequest c endpoint query env st1 Hv) as (Hs & _).
    rewrite Hs. apply makeRequest_miss; [assumption|].
    now apply servedFromCache_stale with (mkEntry p (clock env (Nat.pred (ticks st1)))).
  - destruct (invoke_of_makeRequest c endpoint query env st1 Hv)
      as (Hs & Hthrow & _).
    rewrite Hs.
    assert (Hstale : servedFromCache endpoint query env st1 = false)
      by (now apply servedFromCache_stale
            with (mkEntry p (clock env (Nat.pred (ticks st1))))).
    destruct (makeRequest_miss endpoint query env st1 Hconf Hstale)
      as (_ & [Hf|Hd]); [left; now apply Hthrow | right; exact Hd].
Qed.

End Properties.

(** ** The properties at work, and the two readings refuted *)

Lemma reachable_after_getGenres (env : Env) :
  reachable objectFirst_undefined (after_getGenres env).
Proof.
  apply (reach_call objectFirst_undefined env GetGenres configured_client).
  apply reach_new.
Defined.

Lemma getAccessToken_reuse_and_refresh_witness :
  let st := after_getGenres (world (Ok (VArr []))) in
  getAccessToken (world (Ok (VArr []))) st = (Ok "token", tick st)
  /\ trace (snd (getAccessToken (late_world (Ok (VArr []))) st))
     = (trace st ++ [TokenPost "id" "secret"])%list
  /\ tokenExpiry (this (snd (getAccessToken (world (Ok VNull)) configured_client)))
     = 0 + 3600 * 1000 - 60000.
Proof.
  intros st. split; [|split].
  - destruct (getAccessToken_reuse_and_refresh
                objectFirst_undefined (world (Ok (VArr []))) st
                (reachable_after_getGenres _)) as [H _].
    apply (H "token"); [split; reflexivity | reflexivity].
  - destruct (getAccessToken_reuse_and_refresh
                objectFirst_undefined (late_world (Ok (VArr []))) st
                (reachable_after_getGenres _)) as (_ & H & _).
    apply (H "token"); [split; reflexivity | vm_compute; discriminate].
  - destruct (getAccessToken_reuse_and_refresh
                objectFirst_undefined (world (Ok VNull)) configured_client
                (reach_new _ _ _)) as (_ & _ & H).
    destruct (H (mkTokenResponse "token" 3600 "bearer")
                (fst (getAccessToken (world (Ok VNull)) configured_client))
                (snd (getAccessToken (world (Ok VNull)) configured_client))
                eq_refl eq_refl eq_refl) as (_ & _ & Hexp & _).
    exact Hexp.
Defined.

Lemma makeRequest_401_clears_token_witness :
  let env := world (Throw (AxiosError (Some 401) (Some "ERR_BAD_REQUEST"))) in
  fst (makeRequest "genres" listQuery env configured_client)
  = Throw AuthenticationError
  /\ accessToken (this (snd (makeRequest "genres" listQuery env
                                         configured_client))) = None.
Proof.
  intros env.
  destruct (makeRequest_401_clears_token
              "genres" listQuery env configured_client
              (snd (makeRequest "genres" listQuery env configured_client))
              (fst (makeRequest "genres" listQuery env configured_client))
              (AxiosError (Some 401) (Some "ERR_BAD_REQUEST"))
              eq_refl eq_refl eq_refl eq_refl) as (Hr & Ht & _).
  split; assumption.
Defined.

Lemma makeRequest_429_leaves_cache_witness :
  let env := world (Throw (AxiosError (Some 429) (Some "ERR_BAD_REQUEST"))) in
  let st := after_getGenres (world (Ok (VArr []))) in
  fst (makeRequest "platforms" listQuery env st) = Throw RateLimitError
  /\ requestCache (this (snd (makeRequest "platforms" listQuery env st)))
     = requestCache (this st).
Proof.
  intros env st.
  destruct (makeRequest_429_leaves_cache
              "platforms" listQuery env st
              (snd (makeRequest "platforms" listQuery env st))
              (fst (makeRequest "platforms" listQuery env st))
              (AxiosError (Some 429) (Some "ERR_BAD_REQUEST"))
              eq_refl eq_refl eq_refl eq_refl) as (Hr & Hc & _).
  split; assumption.
Defined.

Lemma getCacheKey_injective_in_query_witness :
  getCacheKey "games" "limit 1;" <> getCacheKey "games" "limit 2;".
Proof.
  apply (getCacheKey_injective_in_query "games" "limit 1;" "limit 2;").
  discriminate.
Defined.

Lemma clearCache_empties_witness :
  let env := world (Ok (VArr [a_record])) in
  let st := after_getGenres env in
  fst (getCacheStats env (snd (clearCache env st))) = Ok (0, [])
  /\ servedFromCache "genres" listQuery env (snd (clearCache env st)) = false.
Proof.
  intros env st.
  destruct (clearCache_empties objectFirst_undefined env st
                               (reachable_after_getGenres env))
    as (_ & Hstats & Hnext).
  split; [apply Hstats|].
  destruct (Hnext "genres" listQuery (mkEntry (VArr [a_record]) 1) env eq_refl)
    as [Hs _].
  exact Hs.
Defined.

Lemma makeRequest_cache_by_truthiness_witness :
  let env := world (Ok VNull) in
  servedFromCache "genres" listQuery env (after_getGenres env) = false
  /\ makeRequest "genres" listQuery (world (Ok (VArr [])))
                 (after_getGenres (world (Ok (VArr []))))
     = (Ok (VArr []), tick (after_getGenres (world (Ok (VArr []))))).
Proof.
  intros env. split.
  - destruct (makeRequest_cache_by_truthiness
                objectFirst_undefined "genres" listQuery env
                (after_getGenres env) (mkEntry VNull 1)
                (reachable_after_getGenres env) eq_refl) as (H & _).
    destruct (H eq_refl) as [Hs _]. exact Hs.
  - destruct (makeRequest_cache_by_truthiness
                objectFirst_undefined "genres" listQuery
                (world (Ok (VArr [])))
                (after_getGenres (world (Ok (VArr []))))
                (mkEntry (VArr []) 1)
                (reachable_after_getGenres _) eq_refl) as (_ & H & _).
    apply (H eq_refl). reflexivity.
Defined.

Lemma searchGames_validates_and_clamps_witness :
  let env := world (Ok (VArr [a_record])) in
  searchGames "   " None env configured_client
  = (Throw ValidationError_query, configured_client)
  /\ searchGames "zelda" (Some 1000) env configured_client
     = makeRequest "games" (searchQuery "zelda" 50) env configured_client
  /\ searchGames "zelda" (Some 7) env configured_client
     = makeRequest "games" (searchQuery "zelda" 7) env configured_client
  /\ fst (searchGames "zelda" (Some 1000) env configured_client)
     = Ok (VArr [a_record]).
Proof.
  intros env.
  assert (Hnb : trim "zelda" <> "") by discriminate.
  assert (Hs1000 : safe_integer (limit_or_default (Some 1000)))
    by (split; reflexivity).
  assert (Hs7 : safe_integer (limit_or_default (Some 7)))
    by (split; reflexivity).
  split; [|split; [|split]].
  - destruct (searchGames_validates_and_clamps "   " None env configured_client)
      as (H & _).
    destruct (H eq_refl) as [_ Hthrow]. exact Hthrow.
  - destruct (searchGames_validates_and_clamps
                "zelda" (Some 1000) env configured_client) as (_ & H & _).
    destruct (H Hnb Hs1000) as [Heq _]. exact Heq.
  - destruct (searchGames_validates_and_clamps
                "zelda" (Some 7) env configured_client) as (_ & H & _).
    destruct (H Hnb Hs7) as [Heq _]. exact Heq.
  - destruct (searchGames_validates_and_clamps
                "zelda" (Some 1000) env configured_client) as (_ & H & _).
    destruct (H Hnb Hs1000) as [_ Hreq].
    destruct (Hreq (fst (searchGames "zelda" (Some 1000) env configured_client))
                   (snd (searchGames "zelda" (Some 1000) env configured_client))
                   eq_refl eq_refl) as [_ Hpayload].
    apply Hpayload. reflexivity.
Defined.

Lemma getGameById_getGameBySlug_single_record_witness :
  let none := world (Ok (VArr [])) in
  let one := world (Ok (VArr [a_record; VObj []])) in
  getGameById objectFirst_undefined (-5) none configured_client
  = (Throw ValidationError_gameId, configured_client)
  /\ getGameById objectFirst_undefined 0 none configured_client
     = (Throw ValidationError_gameId, configured_client)
  /\ getGameBySlug objectFirst_undefined "  " none configured_client
     = (Throw ValidationError_slug, configured_client)
  /\ fst (getGameById objectFirst_undefined 999999 none configured_client)
     = Ok VNull
  /\ fst (getGameBySlug objectFirst_undefined "zelda" one configured_client)
     = Ok a_record.
Proof.
  intros none one. split; [|split; [|split; [|split]]].
  - destruct (getGameById_getGameBySlug_single_record
                objectFirst_undefined (-5) "" none configured_client)
      as (H & _).
    apply H. discriminate.
  - destruct (getGameById_getGameBySlug_single_record
                objectFirst_undefined 0 "" none configured_client)
      as (H & _).
    apply H. discriminate.
  - destruct (getGameById_getGameBySlug_single_record
                objectFirst_undefined 0 "  " none configured_client)
      as (_ & H & _).
    apply H. reflexivity.
  - destruct (getGameById_getGameBySlug_single_record
                objectFirst_undefined 999999 "" none configured_client)
      as (_ & _ & H & _).
    assert (Hpos : 0 < 999999) by reflexivity.
    destruct (H Hpos (snd (makeRequest "games" (byIdQuery 999999) none
                                       configured_client))) as [Hok _].
    destruct (Hok [] eq_refl) as [Heq _]. rewrite Heq. reflexivity.
  - destruct (getGameById_getGameBySlug_single_record
                objectFirst_undefined 1 "zelda" one configured_client)
      as (_ & _ & _ & H).
    assert (Hnb : trim "zelda" <> "") by discriminate.
    destruct (H Hnb (snd (makeRequest "games" (bySlugQuery "zelda") one
                                      configured_client))) as [Hok _].
    destruct (Hok [a_record; VObj []] eq_refl) as [Heq _].
    rewrite Heq. reflexivity.
Defined.

Lemma unconfigured_fails_fast_witness :
  let env := world (Ok (VArr [a_record])) in
  isConfigured (this unconfigured_client) = false
  /\ invoke objectFirst_undefined GetGenres env unconfigured_client
     = (Throw ConfigurationError, unconfigured_client)
  /\ invoke objectFirst_undefined (GetGameById 0) env unconfigured_client
     = (Throw ValidationError_gameId, unconfigured_client).
Proof.
  intros env. split; [|split].
  - destruct (unconfigured_fails_fast
                objectFirst_undefined env unconfigured_client GetGenres
                (reach_new _ _ _) (or_introl eq_refl)) as (H & _).
    exact H.
  - destruct (unconfigured_fails_fast
                objectFirst_undefined env unconfigured_client GetGenres
                (reach_new _ _ _) (or_introl eq_refl)) as (_ & H & _).
    apply (H "genres" listQuery). reflexivity.
  - destruct (unconfigured_fails_fast
                objectFirst_undefined env unconfigured_client (GetGameById 0)
                (reach_new _ _ _) (or_introl eq_refl)) as (_ & _ & H).
    destruct (H ValidationError_gameId eq_refl) as [_ Hthrow]. exact Hthrow.
Defined.

(** An unconfigured client that is asked to search for the empty string
    throws the error of the validation, not [ConfigurationError]. *)
Lemma unconfigured_always_ConfigurationError_counterexample :
  invoke objectFirst_undefined (SearchGames "" None) (world (Ok VNull))
         unconfigured_client
  = (Throw ValidationError_query, unconfigured_client)
  /\ ~ unconfigured_always_ConfigurationError objectFirst_undefined.
Proof.
  split; [reflexivity|].
  intros H.
  destruct (H (world (Ok VNull)) unconfigured_client (SearchGames "" None)
              (reach_new _ _ _) (or_introl eq_refl)) as (_ & Hthrow & _).
  vm_compute in Hthrow. discriminate.
Qed.

Lemma cache_guarantee_for_truthy_payloads_witness :
  let env := world (Ok (VArr [a_record])) in
  let slow := slow_world (Ok (VArr [a_record])) in
  let c := GetGameById 7 in
  let st1 := snd (invoke objectFirst_undefined c env configured_client) in
  let st1' := snd (invoke objectFirst_undefined c slow configured_client) in
  invoke objectFirst_undefined c env st1 = (Ok a_record, tick st1)
  /\ data_requests (trace st1) = 1%nat
  /\ data_requests (trace (snd (invoke objectFirst_undefined c slow st1')))
     = 2%nat.
Proof.
  intros env slow c st1 st1'. split; [|split].
  - destruct (cache_guarantee_for_truthy_payloads
                objectFirst_undefined env configured_client st1 c
                "games" (byIdQuery 7) a_record eq_refl eq_refl eq_refl)
      as (entry & Hget & _ & _ & _ & Hin & _).
    vm_compute in Hget. inversion Hget; subst entry.
    apply Hin; reflexivity.
  - destruct (cache_guarantee_for_truthy_payloads
                objectFirst_undefined env configured_client st1 c
                "games" (byIdQuery 7) a_record eq_refl eq_refl eq_refl)
      as (entry & _ & _ & _ & Hdata & _).
    exact Hdata.
  - destruct (cache_guarantee_for_truthy_payloads
                objectFirst_undefined slow configured_client st1' c
                "games" (byIdQuery 7) a_record eq_refl eq_refl eq_refl)
      as (entry & Hget & _ & _ & Hdata & _ & Hout).
    vm_compute in Hget. inversion Hget; subst entry.
    assert (Hstale : CACHE_DURATION <= clock slow (ticks st1') - 360000)
      by (vm_compute; discriminate).
    destruct (Hout Hstale) as [_ [Hf|Hd]].
    + vm_compute in Hf. discriminate.
    + rewrite Hd, Hdata. reflexivity.
Defined.

(** When the data endpoint answers [null], [getGenres()] returns [null]
    and stores it; the same call one millisecond later goes to the network
    again. *)
Lemma cache_guarantee_for_every_payload_counterexample :
  let env := world (Ok VNull) in
  invoke objectFirst_undefined GetGenres env configured_client
  = (Ok VNull, after_getGenres env)
  /\ data_requests
       (trace (snd (invoke objectFirst_undefined GetGenres env
                           (after_getGenres env)))) = 2%nat
  /\ ~ cache_guarantee_for_every_payload objectFirst_undefined.
Proof.
  intros env. split; [reflexivity|]. split; [reflexivity|].
  intros H.
  destruct (H env configured_client (after_getGenres env) GetGenres
              "genres" listQuery VNull eq_refl eq_refl eq_refl)
    as (entry & Hget & _ & Hin & _).
  vm_compute in Hget. inversion Hget; subst entry.
  assert (Hlt : clock env (ticks (after_getGenres env)) - 1 < CACHE_DURATION)
    by reflexivity.
  destruct (Hin Hlt) as [_ Hcount]. vm_compute in Hcount. discriminate.
Qed.

(** ** Further properties of the client *)

(** *** The map operations *)

Lemma Map_get_None_keys {V} (k : string) (m : Map V) :
  Map_get k m = None <-> ~ In k (Map_keys m).
Proof.
  induction m as [|[k' v] m IH]; cbn.
  - tauto.
  - destruct (String.eqb k k') eqn:E.
    + apply String.eqb_eq in E. subst. split; [discriminate | tauto].
    + apply String.eqb_neq in E. rewrite IH. split.
      * intros Hn [H|H]; [congruence | tauto].
      * tauto.
Qed.

Lemma Map_keys_set_present {V} (k : string) (v : V) (m : Map V) :
  Map_get k m <> None -> Map_keys (Map_set k v m) = Map_keys m.
Proof.
  unfold Map_keys. induction m as [|[k' v'] m IH]; cbn.
  - congruence.
  - destruct (String.eqb k k') eqn:E; cbn; [reflexivity|].
    intros H. now rewrite IH.
Qed.

Lemma Map_keys_set_absent {V} (k : string) (v : V) (m : Map V) :
  Map_get k m = None -> Map_keys (Map_set k v m) = (Map_keys m ++ [k])%list.
Proof.
  unfold Map_keys. induction m as [|[k' v'] m IH]; cbn.
  - reflexivity.
  - destruct (String.eqb k k') eqn:E; cbn; [discriminate|].
    intros H. now rewrite IH.
Qed.

Lemma Map_set_NoDup {V} (k : string) (v : V) (m : Map V) :
  NoDup (Map_keys m) -> NoDup (Map_keys (Map_set k v m)).
Proof.
  intros Hnd. destruct (Map_get k m) eqn:E.
  - rewrite Map_keys_set_present by congruence. exact Hnd.
  - rewrite Map_keys_set_absent by assumption.
    apply NoDup_app; [exact Hnd | repeat constructor; intros [] |].
    intros x Hx. intros [<-|[]]. now apply Map_get_None_keys in E.
Qed.

(** *** Construction and credentials *)

(** X1. A new client is configured exactly when both environment variables
    are set to non-empty strings; a variable that is missing and one that
    is set to the empty string are the same to it. A new client holds no
    token and no cache entry. *)
Theorem constructor_isConfigured (IGDB_CLIENT_ID IGDB_CLIENT_SECRET : option string) :
  (isConfigured (constructor IGDB_CLIENT_ID IGDB_CLIENT_SECRET) = true <->
   exists id secret,
     IGDB_CLIENT_ID = Some id /\ IGDB_CLIENT_SECRET = Some secret
     /\ id <> "" /\ secret <> "")
  /\ constructor (Some "") IGDB_CLIENT_SECRET
     = constructor None IGDB_CLIENT_SECRET
  /\ constructor IGDB_CLIENT_ID (Some "")
     = constructor IGDB_CLIENT_ID None
  /\ accessToken (constructor IGDB_CLIENT_ID IGDB_CLIENT_SECRET) = None
  /\ requestCache (constructor IGDB_CLIENT_ID IGDB_CLIENT_SECRET) = [].
Proof.
  split; [|repeat split].
  unfold isConfigured, constructor; cbn. rewrite andb_true_iff. split.
  - intros [Hi Hs].
    destruct IGDB_CLIENT_ID as [[|c i]|]; try discriminate.
    destruct IGDB_CLIENT_SECRET as [[|c' s]|]; try discriminate.
    exists (String c i), (String c' s). repeat split; discriminate.
  - intros (id & secret & -> & -> & Hi & Hs).
    destruct id; [congruence|]. destruct secret; [congruence|]. now split.
Qed.

Section MoreProperties.

Variable objectFirst : list (string * Value) -> Completion Value.

#[local] Abbreviation invoke := (invoke objectFirst).
#[local] Abbreviation reachable := (reachable objectFirst).

Lemma invoke_credentials (c : Call) (env : Env) (st : State) :
  clientId (this (snd (invoke c env st))) = clientId (this st)
  /\ clientSecret (this (snd (invoke c env st))) = clientSecret (this st).
Proof.
  rewrite invoke_validate.
  destruct (validate c) as [[endpoint query]|e]; [|now split].
  pose proof (makeRequest_credentials endpoint query env st) as H.
  destruct (makeRequest endpoint query env st) as [[p|e'] st']; exact H.
Qed.

(** X2. The credentials are read once, at construction: no call of an
    authenticated method and no [clearCache()] changes them, so that
    [isConfigured()] gives the same answer for the whole life of a
    client. *)
Theorem credentials_never_change (c : Call) (env : Env) (st : State) :
  clientId (this (snd (invoke c env st))) = clientId (this st)
  /\ clientSecret (this (snd (invoke c env st))) = clientSecret (this st)
  /\ isConfigured (this (snd (invoke c env st))) = isConfigured (this st)
  /\ clientId (this (snd (clearCache env st))) = clientId (this st)
  /\ clientSecret (this (snd (clearCache env st))) = clientSecret (this st)
  /\ isConfigured (this (snd (clearCache env st))) = isConfigured (this st).
Proof.
  destruct (invoke_credentials c env st) as [Hi Hs].
  repeat split; try assumption; try reflexivity.
  now apply isConfigured_credentials.
Qed.

(** X3. A client one of whose credentials is empty never reads the clock
    and never sends a request, whatever is called on it and however often:
    in every reachable state of such a client the trace of outbound
    requests is empty, and so are the token and the cache. *)
Theorem unconfigured_never_sends (st : State) :
  reachable st ->
  isConfigured (this st) = false ->
  trace st = [] /\ ticks st = 0%nat /\ exchanges st = 0%nat
  /\ queries st = 0%nat
  /\ accessToken (this st) = None /\ requestCache (this st) = [].
Proof.
  induction 1 as [id secret | env c st Hr IH | env st Hr IH]; intros Hc.
  - now repeat split.
  - destruct (invoke_credentials c env st) as [Hi Hs].
    rewrite (isConfigured_credentials _ _ Hi Hs) in Hc.
    destruct (IH Hc) as (Ht & Hk & He & Hq & Ha & Hm).
    assert (Hsame : invoke c env st = (fst (invoke c env st), st)).
    { rewrite invoke_validate.
      destruct (validate c) as [[endpoint query]|e]; [|reflexivity].
      now rewrite makeRequest_unconfigured. }
    rewrite Hsame. cbn [snd]. now repeat split.
  - cbv [clearCache bind get_this set_requestCache set_this Map_clear] in *.
    cbn in *. destruct (IH Hc) as (Ht & Hk & He & Hq & Ha & Hm).
    now repeat split.
Qed.

End MoreProperties.

(** *** Token exchange *)

(** X4. When [getAccessToken] performs a token exchange and the exchange is
    rejected, whatever the reason, the call throws the error of a failed
    authentication, the reason being dropped; the client is left as it was,
    an expired token included; one exchange was sent and none is sent
    again. *)
Theorem getAccessToken_exchange_rejected
        (env : Env) (st st' : State) (r : Completion string) (error : Exn) :
  getAccessToken env st = (r, st') ->
  exchanges st' = S (exchanges st) ->
  idp env (exchanges st) = Throw error ->
  r = Throw AuthenticationError_exchange
  /\ this st' = this st
  /\ trace st'
     = (trace st ++ [TokenPost (clientId (this st)) (clientSecret (this st))])%list
  /\ queries st' = queries st.
Proof.
  intros Hrun Hex Hidp.
  destruct st as [[i s a x c] tk ex qs tr]; revert Hrun Hex; run.
  by_cases ltac:(rewrite Hidp);
    intros Hrun Hex; inversion Hrun; subst; finish.
Qed.

(** X5. A token whose reported life time is at most sixty seconds is
    expired when it is stored: the expiry is not later than the time of
    storing, so that, on a clock that does not run backwards, the next
    [getAccessToken] exchanges again instead of reusing it. *)
Theorem short_lived_token_not_reused
        (env env' : Env) (st st' : State) (r : Completion string)
        (resp : IGDBTokenResponse) :
  getAccessToken env st = (r, st') ->
  exchanges st' = S (exchanges st) ->
  idp env (exchanges st) = Ok resp ->
  expires_in resp <= 60 ->
  clock env (Nat.pred (ticks st')) <= clock env' (ticks st') ->
  tokenExpiry (this st') <= clock env (Nat.pred (ticks st'))
  /\ trace (snd (getAccessToken env' st'))
     = (trace st'
          ++ [TokenPost (clientId (this st')) (clientSecret (this st'))])%list.
Proof.
  intros Hrun Hex Hidp Hshort Hmono.
  assert (H : tokenExpiry (this st') <= clock env (Nat.pred (ticks st'))
              /\ isConfigured (this st') = true).
  { destruct st as [[i s a x c] tk ex qs tr]; revert Hrun Hex; run.
    by_cases ltac:(rewrite Hidp);
      intros Hrun Hex; inversion Hrun; subst; finish. }
  destruct H as [Hexp Hc]. split; [exact Hexp|].
  rewrite <- negb_false_iff, <- configured_guard in Hc.
  destruct st' as [[i s a x c] tk ex qs tr]; run. rewrite Hc; cbn.
  assert (Hge : (clock env' tk <? x) = false) by (apply Z.ltb_ge; lia).
  destruct a as [tok|]; cbn.
  - destruct (truthy_string tok); cbn; rewrite ?Hge; cbn;
      destruct (idp env' ex); reflexivity.
  - destruct (idp env' ex); reflexivity.
Qed.

(** *** The cache *)

(** X6. What [setCachedData] stores under a key, [getCachedData] returns for
    that key as long as the clock reads less than five minutes more than at
    the time of storing, whatever the payload; from exactly five minutes on
    it returns [null]. Storing leaves the entries of all other keys as they
    were, and looking up never changes the client: an entry that is too old
    stays in the cache. *)
Theorem setCachedData_then_getCachedData
        (key : string) (d : Value) (env env' : Env) (st : State) :
  let st1 := snd (setCachedData key d env st) in
  Map_get key (requestCache (this st1))
  = Some (mkEntry d (clock env (ticks st)))
  /\ (clock env' (ticks st1) - clock env (ticks st) < CACHE_DURATION ->
      getCachedData key env' st1 = (Ok d, tick st1))
  /\ (CACHE_DURATION <= clock env' (ticks st1) - clock env (ticks st) ->
      getCachedData key env' st1 = (Ok VNull, tick st1))
  /\ (forall k, k <> key ->
                Map_get k (requestCache (this st1))
                = Map_get k (requestCache (this st)))
  /\ (forall k, this (snd (getCachedData k env' st1)) = this st1).
Proof.
  intros st1.
  assert (Hget : Map_get key (requestCache (this st1))
                 = Some (mkEntry d (clock env (ticks st)))).
  { subst st1. destruct st as [[i s a x c] tk ex qs tr]; run.
    apply Map_get_set_same. }
  change CACHE_DURATION with 300000.
  split; [exact Hget|]. split; [|split; [|split]].
  - intros Hlt. apply Z.ltb_lt in Hlt.
    destruct st1 as [[i s a x c] tk ex qs tr]; run.
    rewrite Hget; cbn. now rewrite Hlt.
  - intros Hge. apply Z.ltb_ge in Hge.
    destruct st1 as [[i s a x c] tk ex qs tr]; run.
    rewrite Hget; cbn. now rewrite Hge.
  - intros k Hk. subst st1. destruct st as [[i s a x c] tk ex qs tr]; run.
    now apply Map_get_set_other.
  - intros k. destruct st1 as [[i s a x c] tk ex qs tr]; run.
    repeat (break_match; cbn); reflexivity.
Qed.

(** A call of [makeRequest] leaves the cache as it was, or it has fetched a
    payload and stored it under the key of the request. *)
Lemma makeRequest_cache_change
      (endpoint query : string) (env : Env) (st st' : State)
      (r : Completion Value) :
  makeRequest endpoint query env st = (r, st') ->
  requestCache (this st') = requestCache (this st)
  \/ exists payload,
      r = Ok payload
      /\ queries st' = S (queries st)
      /\ api env (queries st) = Ok payload
      /\ requestCache (this st')
         = Map_set (getCacheKey endpoint query)
                   (mkEntry payload (clock env (Nat.pred (ticks st'))))
                   (requestCache (this st)).
Proof.
  intros Hrun.
  destruct st as [[i s a x c] tk ex qs tr]; revert Hrun; run.
  by_cases fail; intros Hrun; inversion Hrun; subst; cbn;
    first [left; reflexivity | right; eexists; repeat split; eassumption].
Qed.

(** X7. The cache is written by success only, and only at the key of the
    request. A call of [makeRequest] that changes the cache has sent a data
    request, returns the payload the data endpoint answered and has stored
    it with the time of storing; a call that throws leaves the cache as it
    was. In every case the entries of all other keys are untouched, and the
    list of keys is the one from before, with the key of the request added
    at its end if it was not there: nothing is ever evicted. *)
Theorem makeRequest_cache_effect
        (endpoint query : string) (env : Env) (st st' : State)
        (r : Completion Value) :
  makeRequest endpoint query env st = (r, st') ->
  let key := getCacheKey endpoint query in
  (requestCache (this st') <> requestCache (this st) ->
   exists payload,
     r = Ok payload
     /\ queries st' = S (queries st)
     /\ api env (queries st) = Ok payload
     /\ Map_get key (requestCache (this st'))
        = Some (mkEntry payload (clock env (Nat.pred (ticks st')))))
  /\ (forall e, r = Throw e ->
                requestCache (this st') = requestCache (this st))
  /\ (forall k, k <> key ->
                Map_get k (requestCache (this st'))
                = Map_get k (requestCache (this st)))
  /\ (Map_keys (requestCache (this st')) = Map_keys (requestCache (this st))
      \/ (Map_get key (requestCache (this st)) = None
          /\ Map_keys (requestCache (this st'))
             = (Map_keys (requestCache (this st)) ++ [key])%list)).
Proof.
  intros Hrun key.
  destruct (makeRequest_cache_change endpoint query env st st' r Hrun)
    as [Hsame | (payload & Hr & Hq & Hapi & Hset)].
  - rewrite Hsame. split; [congruence|]. split; [reflexivity|].
    split; [reflexivity | now left].
  - fold key in Hset. rewrite Hset. split; [|split; [|split]].
    + intros _. exists payload. now rewrite Map_get_set_same.
    + intros e He. congruence.
    + intros k Hk. now apply Map_get_set_other.
    + destruct (Map_get key (requestCache (this st))) eqn:E.
      * left. apply Map_keys_set_present. congruence.
      * right. split; [reflexivity|]. now apply Map_keys_set_absent.
Qed.

Section CacheInvariant.

Variable objectFirst : list (string * Value) -> Completion Value.

(** X8. In every reachable state the keys of the cache are pairwise
    different, and [getCacheStats()] reports the cache as it is, without
    changing anything: its list of keys names each key once, a key is in
    the list exactly when the cache has an entry for it, and the size is
    the length of the list, that is the number of different requests whose
    answers are stored. *)
Theorem cache_keys_distinct (env : Env) (st : State) :
  reachable objectFirst st ->
  NoDup (Map_keys (requestCache (this st)))
  /\ exists keys,
      getCacheStats env st = (Ok (Z.of_nat (List.length keys), keys), st)
      /\ keys = Map_keys (requestCache (this st))
      /\ NoDup keys
      /\ (forall k, In k keys <->
                    exists entry,
                      Map_get k (requestCache (this st)) = Some entry).
Proof.
  intros Hr.
  assert (Hnd : NoDup (Map_keys (requestCache (this st)))).
  { induction Hr as [id secret | env0 c st Hr IH | env0 st Hr IH].
    - constructor.
    - rewrite invoke_validate.
      destruct (validate c) as [[endpoint query]|e]; [|exact IH].
      destruct (makeRequest endpoint query env0 st) as [r st'] eqn:Hm.
      assert (H : NoDup (Map_keys (requestCache (this st')))).
      { destruct (makeRequest_cache_change _ _ _ _ _ _ Hm)
          as [Hsame | (payload & _ & _ & _ & Hset)].
        - now rewrite Hsame.
        - rewrite Hset. now apply Map_set_NoDup. }
      destruct r; exact H.
    - constructor. }
  split; [exact Hnd|].
  exists (Map_keys (requestCache (this st))).
  split; [|split; [reflexivity | split; [exact Hnd|]]].
  - cbv [getCacheStats bind get_this ret Map_size].
    unfold Map_keys. now rewrite length_map.
  - intros k. split.
    + intros Hin. destruct (Map_get k (requestCache (this st))) eqn:E.
      * eauto.
      * apply Map_get_None_keys in E. contradiction.
    + intros [entry He].
      destruct (in_dec string_dec k (Map_keys (requestCache (this st))))
        as [Hin|Hnin]; [exact Hin|].
      apply Map_get_None_keys in Hnin. congruence.
Qed.

End CacheInvariant.

(** *** Requests and errors of [makeRequest] *)

(** X9. Nothing is ever retried. A call of [makeRequest] sends no request
    (it is answered from the cache, or the client is not configured), or a
    token exchange that fails, or one data request that carries the token
    the client already held, or a token exchange followed by one data
    request that carries the token of the exchange. The data request is for
    the endpoint and the query text of the call and carries the client id
    of the client. *)
Theorem makeRequest_sends_at_most_two
        (endpoint query : string) (env : Env) (st : State) :
  let st' := snd (makeRequest endpoint query env st) in
  let id := clientId (this st) in
  let secret := clientSecret (this st) in
  trace st' = trace st
  \/ (trace st' = (trace st ++ [TokenPost id secret])%list
      /\ exists error, idp env (exchanges st) = Throw error)
  \/ (exists tok,
        holdsToken (this st) tok
        /\ trace st' = (trace st ++ [DataPost endpoint query id tok])%list)
  \/ (exists resp,
        idp env (exchanges st) = Ok resp
        /\ trace st'
           = (trace st ++ [TokenPost id secret;
                           DataPost endpoint query id (access_token resp)])%list).
Proof.
  destruct st as [[i s a x c] tk ex qs tr]; run.
  by_cases fail;
    first [ left; reflexivity
          | right; left; split; [reflexivity | eexists; reflexivity]
          | right; right; left; eexists; split;
            [split; [reflexivity | assumption] | reflexivity]
          | right; right; right; eexists; split;
            [reflexivity | rewrite <- app_assoc; reflexivity] ].
Qed.

Lemma makeRequest_throw_kinds
      (endpoint query : string) (env : Env) (st st' : State) (e : Exn) :
  makeRequest endpoint query env st = (Throw e, st') ->
  In e [ConfigurationError; AuthenticationError_exchange; RateLimitError;
        AuthenticationError; TimeoutError; UpstreamError endpoint]
  /\ isValidationError e = false.
Proof.
  intros Hrun.
  destruct st as [[i s a x c] tk ex qs tr]; revert Hrun; run.
  by_cases fail; intros Hrun; inversion Hrun; subst;
    (split; [cbn; tauto | reflexivity]).
Qed.

(** X10. [makeRequest] throws nothing but the six errors of the client:
    that of a missing credential, that of a failed token exchange, and for
    a rejected data request those of a rate limit, of a failed
    authentication, of a timeout and of a failed fetch from its endpoint.
    None of them is an error of the validation of arguments, and each of
    them leaves the cache as it was. *)
Theorem makeRequest_throws_only
        (endpoint query : string) (env : Env) (st st' : State) (e : Exn) :
  makeRequest endpoint query env st = (Throw e, st') ->
  In e [ConfigurationError; AuthenticationError_exchange; RateLimitError;
        AuthenticationError; TimeoutError; UpstreamError endpoint]
  /\ isValidationError e = false
  /\ requestCache (this st') = requestCache (this st).
Proof.
  intros Hrun.
  destruct (makeRequest_throw_kinds endpoint query env st st' e Hrun)
    as [Hin Hval].
  repeat split; try assumption.
  now apply (makeRequest_throw_leaves_cache endpoint query env st st' e).
Qed.

Lemma option_Z_eqb_false (a : option Z) (b : Z) :
  a <> Some b -> option_Z_eqb a b = false.
Proof.
  destruct a as [x|]; cbn; [|reflexivity].
  intros H. apply Z.eqb_neq. congruence.
Qed.

Lemma option_string_eqb_iff (a : option string) (b : string) :
  option_string_eqb a b = true <-> a = Some b.
Proof.
  destruct a as [x|]; cbn; [|split; discriminate].
  rewrite String.eqb_eq. split; congruence.
Qed.

(** X11. When the data request of a call is rejected with a status that is
    neither 429 nor 401, or with no response at all, the call throws the
    error of a timeout if the code of the rejection is [ECONNABORTED], and
    the error of a failed fetch, naming the endpoint, otherwise. Either way
    the token that the request carried stays the token of the client, and
    the cache is as it was. *)
Theorem makeRequest_other_rejections
        (endpoint query : string) (env : Env) (st st' : State)
        (r : Completion Value) (error : Exn) :
  makeRequest endpoint query env st = (r, st') ->
  queries st' = S (queries st) ->
  api env (queries st) = Throw error ->
  response_status error <> Some 429 ->
  response_status error <> Some 401 ->
  (error_code error = Some "ECONNABORTED" -> r = Throw TimeoutError)
  /\ (error_code error <> Some "ECONNABORTED" ->
      r = Throw (UpstreamError endpoint))
  /\ requestCache (this st') = requestCache (this st)
  /\ exists pre bearer,
      accessToken (this st') = Some bearer
      /\ trace st'
         = (pre ++ [DataPost endpoint query (clientId (this st)) bearer])%list.
Proof.
  intros Hrun Hq Hapi H429 H401.
  apply option_Z_eqb_false in H429, H401.
  destruct (option_string_eqb (error_code error) "ECONNABORTED") eqn:Hcode.
  - pose proof (proj1 (option_string_eqb_iff _ _) Hcode) as Hc.
    destruct st as [[i s a x c] tk ex qs tr]; revert Hrun Hq; run.
    by_cases ltac:(first [rewrite Hapi | rewrite H429 | rewrite H401
                          | rewrite Hcode]);
      intros Hrun Hq; inversion Hrun; subst; cbn in *; try lia;
      (split; [reflexivity|]); (split; [congruence|]);
      (split; [reflexivity|]); eauto.
  - assert (Hc : error_code error <> Some "ECONNABORTED").
    { intros H. apply option_string_eqb_iff in H. congruence. }
    destruct st as [[i s a x c] tk ex qs tr]; revert Hrun Hq; run.
    by_cases ltac:(first [rewrite Hapi | rewrite H429 | rewrite H401
                          | rewrite Hcode]);
      intros Hrun Hq; inversion Hrun; subst; cbn in *; try lia;
      (split; [congruence|]); (split; [reflexivity|]);
      (split; [reflexivity|]); eauto.
Qed.

(** X12. The first request of a configured client, and the first after a
    401: with no token held and nothing to answer from in the cache, when
    the exchange and the data request both succeed, [makeRequest] sends the
    exchange and then the data request with the token of the exchange,
    returns the payload, holds the token with its expiry, and has stored
    the payload under the key of the request. *)
Theorem makeRequest_first_request
        (endpoint query : string) (env : Env) (st : State)
        (resp : IGDBTokenResponse) (payload : Value) :
  isConfigured (this st) = true ->
  accessToken (this st) = None ->
  servedFromCache endpoint query env st = false ->
  idp env (exchanges st) = Ok resp ->
  api env (queries st) = Ok payload ->
  let st' := snd (makeRequest endpoint query env st) in
  fst (makeRequest endpoint query env st) = Ok payload
  /\ trace st'
     = (trace st ++ [TokenPost (clientId (this st)) (clientSecret (this st));
                     DataPost endpoint query (clientId (this st))
                              (access_token resp)])%list
  /\ accessToken (this st') = Some (access_token resp)
  /\ tokenExpiry (this st')
     = clock env (Nat.pred (Nat.pred (ticks st')))
       + expires_in resp * 1000 - 60000
  /\ Map_get (getCacheKey endpoint query) (requestCache (this st'))
     = Some (mkEntry payload (clock env (Nat.pred (ticks st')))).
Proof.
  intros Hc Hn Hmiss Hidp Hapi.
  rewrite <- negb_false_iff, <- configured_guard in Hc.
  unfold servedFromCache in Hmiss.
  destruct st as [[i s a x c] tk ex qs tr]; revert Hmiss; run. subst a.
  by_cases ltac:(first [rewrite Hidp | rewrite Hapi]);
    try discriminate; intros _; try congruence;
    rewrite ?Map_get_set_same, <- ?app_assoc; repeat split.
Qed.

(** *** The arguments of the methods *)

Lemma limit_line_above (limit : Z) :
  50 <= limit -> limit_line limit = limit_line 50.
Proof. intros H. unfold limit_line. now rewrite !Z.min_r by lia. Qed.

(** X13. A limit is an upper bound only. Every limit of 50 or more gives
    the very call that the limit 50 gives, with the same query text and so
    the same cache entry, and a call without a limit is the call with the
    limit 20. A limit of 50 or less, zero and negative limits included, is
    not rejected and is written into the query text as it is: the call is
    [makeRequest] for the endpoint [games] with the text of the method
    whose limit line is [limit n;] for the limit [n] that was given. *)
Theorem limit_clamped_and_defaulted
        (query : string) (genreId platformId limit : Z) :
  (50 <= limit ->
   searchGames query (Some limit) = searchGames query (Some 50)
   /\ getPopularGames (Some limit) = getPopularGames (Some 50)
   /\ getGamesByGenre genreId (Some limit) = getGamesByGenre genreId (Some 50)
   /\ getGamesByPlatform platformId (Some limit)
      = getGamesByPlatform platformId (Some 50))
  /\ (searchGames query None = searchGames query (Some 20)
      /\ getPopularGames None = getPopularGames (Some 20)
      /\ getGamesByGenre genreId None = getGamesByGenre genreId (Some 20)
      /\ getGamesByPlatform platformId None
         = getGamesByPlatform platformId (Some 20))
  /\ (limit <= 50 ->
      safe_integer limit ->
      let limit_text := ("limit " ++ Number_toString limit ++ ";")%string in
      (trim query <> "" ->
       searchGames query (Some limit)
       = makeRequest "games"
           (template
              [fields_search;
               ("where version_parent = null & category = 0 & name ~ *"
                ++ dquote ++ query ++ dquote ++ "*;")%string;
               limit_text;
               "sort rating desc;"]))
      /\ getPopularGames (Some limit)
         = makeRequest "games"
             (template
                [fields_full;
                 "where rating_count > 100 & version_parent = null & category = 0;";
                 "sort rating desc;";
                 limit_text])
      /\ (0 < genreId -> safe_integer genreId ->
          getGamesByGenre genreId (Some limit)
          = makeRequest "games"
              (template
                 [fields_full;
                  ("where genres = " ++ Number_toString genreId
                   ++ " & version_parent = null & category = 0;")%string;
                  "sort rating desc;";
                  limit_text]))
      /\ (0 < platformId -> safe_integer platformId ->
          getGamesByPlatform platformId (Some limit)
          = makeRequest "games"
              (template
                 [fields_full;
                  ("where platforms = " ++ Number_toString platformId
                   ++ " & version_parent = null & category = 0;")%string;
                  "sort rating desc;";
                  limit_text]))).
Proof.
  split; [|split].
  - intros H.
    unfold searchGames, getPopularGames, getGamesByGenre, getGamesByPlatform,
      searchQuery, popularQuery, byGenreQuery, byPlatformQuery.
    cbn [limit_or_default]. rewrite (limit_line_above limit H).
    repeat split.
  - repeat split.
  - intros H _ limit_text.
    assert (Hl : limit_line limit = limit_text).
    { unfold limit_line, limit_text. now rewrite Z.min_l by lia. }
    assert (Hid : forall id, 0 < id -> invalid_id id = false).
    { intros id Hpos. unfold invalid_id, truthy_number.
      apply orb_false_iff. split.
      - apply negb_false_iff, negb_true_iff, Z.eqb_neq. lia.
      - apply Z.leb_gt. lia. }
    unfold searchGames, getPopularGames, getGamesByGenre, getGamesByPlatform,
      searchQuery, popularQuery, byGenreQuery, byPlatformQuery.
    cbn [limit_or_default]. rewrite Hl.
    split; [|split; [|split]].
    + intros Hnb. apply truthy_string_true in Hnb. now rewrite Hnb.
    + reflexivity.
    + intros Hpos _. now rewrite (Hid genreId Hpos).
    + intros Hpos _. now rewrite (Hid platformId Hpos).
Qed.

Lemma invalid_id_iff (id : Z) : invalid_id id = true <-> id <= 0.
Proof.
  unfold invalid_id, truthy_number.
  rewrite orb_true_iff, negb_true_iff, negb_false_iff, Z.eqb_eq, Z.leb_le.
  lia.
Qed.

(** X14. [getGamesByGenre] and [getGamesByPlatform] throw their
    [ValidationError] for every id that is not positive, in every state and
    before anything else happens. For a positive id they are [makeRequest]
    for the endpoint [games] with the query text of the method, and
    whatever they throw then is no error of the validation. *)
Theorem getGamesByGenre_getGamesByPlatform_validation
        (id : Z) (limit : option Z) (env : Env) (st : State) :
  (id <= 0 ->
   getGamesByGenre id limit env st = (Throw ValidationError_genreId, st)
   /\ getGamesByPlatform id limit env st
      = (Throw ValidationError_platformId, st))
  /\ (0 < id ->
      getGamesByGenre id limit env st
      = makeRequest "games" (byGenreQuery id (limit_or_default limit)) env st
      /\ getGamesByPlatform id limit env st
         = makeRequest "games" (byPlatformQuery id (limit_or_default limit))
                       env st
      /\ (forall e st',
             getGamesByGenre id limit env st = (Throw e, st')
             \/ getGamesByPlatform id limit env st = (Throw e, st') ->
             isValidationError e = false)).
Proof.
  unfold getGamesByGenre, getGamesByPlatform. split.
  - intros H. apply invalid_id_iff in H. now rewrite H.
  - intros H.
    assert (Hv : invalid_id id = false).
    { destruct (invalid_id id) eqn:E; [|reflexivity].
      apply invalid_id_iff in E. lia. }
    rewrite Hv. split; [reflexivity|]. split; [reflexivity|].
    intros e st' [Hrun|Hrun];
      now destruct (makeRequest_throw_kinds _ _ _ _ _ _ Hrun).
Qed.

(** *** Cache keys across endpoints *)

Lemma getCacheKey_colon_free (e1 e2 q1 q2 : string) :
  colon_free e1 -> colon_free e2 ->
  getCacheKey e1 q1 = getCacheKey e2 q2 -> e1 = e2 /\ q1 = q2.
Proof.
  unfold getCacheKey, colon_free. revert e2.
  induction e1 as [|c1 e1 IH]; intros [|c2 e2] H1 H2 Heq; cbn in *.
  - inversion Heq. now split.
  - inversion Heq. subst c2. exfalso. apply H2. now left.
  - inversion Heq. subst c1. exfalso. apply H1. now left.
  - inversion Heq. subst c2.
    destruct (IH e2) as [-> ->]; try assumption; auto.
Qed.

(** X15. The key of a request does not keep the endpoint and the query text
    apart when the endpoint has a colon in it. For endpoints without a
    colon, which those of all methods but [makeCustomRequest] are, two
    requests with the same key are the same request. But the key of
    [e:a] with [b] is the key of [e] with [a:b], and a request is answered
    from the entry of whatever request has its key: when one of two
    requests with the same key is answered from the cache, so is the
    other, with the same payload. *)
Theorem getCacheKey_and_endpoints (e1 q1 e2 q2 : string) :
  (colon_free e1 -> colon_free e2 ->
   getCacheKey e1 q1 = getCacheKey e2 q2 -> e1 = e2 /\ q1 = q2)
  /\ (forall c endpoint query,
        validate c = Ok (endpoint, query) ->
        (forall e q, c <> MakeCustomRequest e q) ->
        colon_free endpoint)
  /\ getCacheKey (e1 ++ ":" ++ q1) q2 = getCacheKey e1 (q1 ++ ":" ++ q2)
  /\ (forall env st,
        getCacheKey e1 q1 = getCacheKey e2 q2 ->
        servedFromCache e1 q1 env st = true ->
        makeRequest e2 q2 env st = makeRequest e1 q1 env st).
Proof.
  split; [apply getCacheKey_colon_free|]. split; [|split].
  - intros c endpoint query Hv Hc.
    destruct c; cbn in Hv;
      repeat match type of Hv with
             | context [if ?b then _ else _] => destruct b
             end;
      inversion Hv; subst;
      try (unfold colon_free; cbn; intros H;
           repeat destruct H as [H|H]; discriminate || contradiction).
    exfalso. now apply (Hc endpoint query).
  - unfold getCacheKey.
    induction e1 as [|c e1 IH]; cbn in *; [reflexivity | now f_equal].
  - intros env st Hkey. unfold servedFromCache.
    destruct st as [[i s a x c] tk ex qs tr]; run. rewrite <- Hkey.
    by_cases fail; try discriminate; intros _; reflexivity.
Qed.

(** *** Query texts and their arguments *)

Lemma length_append (a b : string) :
  String.length (a ++ b) = (String.length a + String.length b)%nat.
Proof. induction a as [|ch a IH]; cbn; [reflexivity | now rewrite IH]. Qed.

Lemma append_inv_head (a x y : string) : (a ++ x = a ++ y)%string -> x = y.
Proof.
  induction a as [|ch a IH]; cbn; [auto|]. intros H. inversion H. auto.
Qed.

Lemma append_inv_tail (x y t : string) : (x ++ t = y ++ t)%string -> x = y.
Proof.
  revert y. induction x as [|c x IH]; intros [|d y] H; cbn in H.
  - reflexivity.
  - apply (f_equal String.length) in H. cbn in H.
    rewrite length_append in H. lia.
  - apply (f_equal String.length) in H. cbn in H.
    rewrite length_append in H. lia.
  - inversion H. f_equal. now apply IH.
Qed.

Lemma Z_to_int_proper (n : Z) :
  Z.to_int n <> Decimal.Pos Decimal.Nil /\ Z.to_int n <> Decimal.Neg Decimal.Nil.
Proof.
  destruct n as [|p|p]; cbn; split; try discriminate;
    intros H; inversion H as [Hp];
    now apply (DecimalPos.Unsigned.to_uint_nonnil p).
Qed.

Lemma Number_toString_inj (n m : Z) :
  Number_toString n = Number_toString m -> n = m.
Proof.
  unfold Number_toString. intros H.
  apply (f_equal NilZero.int_of_string) in H.
  destruct (Z_to_int_proper n) as [Hn1 Hn2].
  destruct (Z_to_int_proper m) as [Hm1 Hm2].
  rewrite !NilZero.isi in H by assumption.
  inversion H as [Heq]. apply (f_equal Z.of_int) in Heq.
  now rewrite !DecimalZ.of_to in Heq.
Qed.

(** Cancel what two query texts of the same method have in common. *)
Ltac cancel_text H :=
  cbv [searchQuery popularQuery byIdQuery bySlugQuery byGenreQuery
       byPlatformQuery limit_line template line List.map String.concat] in H;
  repeat rewrite append_assoc in H;
  repeat apply append_inv_head in H;
  apply append_inv_tail in H.

(** X16. Different arguments give different query texts, and so different
    cache keys: two search terms that differ in any character (a term is
    written into the text as it is, quotes included), two slugs, and two
    ids of a game, of a genre or of a platform never share a cache entry;
    and two limits give the same key exactly when they are the same after
    clamping to 50. *)
Theorem different_arguments_different_keys :
  (forall query1 query2 limit,
      query1 <> query2 ->
      getCacheKey "games" (searchQuery query1 limit)
      <> getCacheKey "games" (searchQuery query2 limit))
  /\ (forall slug1 slug2,
         slug1 <> slug2 ->
         getCacheKey "games" (bySlugQuery slug1)
         <> getCacheKey "games" (bySlugQuery slug2))
  /\ (forall id1 id2 : Z,
         id1 <> id2 ->
         getCacheKey "games" (byIdQuery id1)
         <> getCacheKey "games" (byIdQuery id2))
  /\ (forall id1 id2 limit,
         id1 <> id2 ->
         getCacheKey "games" (byGenreQuery id1 limit)
         <> getCacheKey "games" (byGenreQuery id2 limit)
         /\ getCacheKey "games" (byPlatformQuery id1 limit)
            <> getCacheKey "games" (byPlatformQuery id2 limit))
  /\ (forall limit1 limit2,
         getCacheKey "games" (popularQuery limit1)
         = getCacheKey "games" (popularQuery limit2)
         <-> Z.min limit1 50 = Z.min limit2 50).
Proof.
  unfold getCacheKey.
  split; [|split; [|split; [|split]]].
  - intros q1 q2 l Hne H. apply Hne. now cancel_text H.
  - intros s1 s2 Hne H. apply Hne. now cancel_text H.
  - intros i1 i2 Hne H. apply Hne. cancel_text H.
    now apply Number_toString_inj.
  - intros i1 i2 l Hne. split; intros H; apply Hne; cancel_text H;
      now apply Number_toString_inj.
  - intros l1 l2. split.
    + intros H. cancel_text H. now apply Number_toString_inj.
    + intros H. unfold popularQuery, limit_line. now rewrite H.
Qed.

(** X17. A token that is still valid is reused for data requests: when a
    configured client holds a token, the clock reads less than the expiry
    at the next two readings and the request is not answered from the
    cache, [makeRequest] sends the data request with the held token and no
    token exchange. *)
Theorem makeRequest_reuses_valid_token
        (endpoint query : string) (env : Env) (st : State) (tok : string) :
  isConfigured (this st) = true ->
  holdsToken (this st) tok ->
  clock env (ticks st) < tokenExpiry (this st) ->
  clock env (S (ticks st)) < tokenExpiry (this st) ->
  servedFromCache endpoint query env st = false ->
  let st' := snd (makeRequest endpoint query env st) in
  trace st'
  = (trace st ++ [DataPost endpoint query (clientId (this st)) tok])%list
  /\ exchanges st' = exchanges st
  /\ queries st' = S (queries st).
Proof.
  intros Hc [Ht Hne] H0 H1 Hmiss.
  rewrite <- negb_false_iff, <- configured_guard in Hc.
  apply Z.ltb_lt in H0, H1.
  unfold servedFromCache in Hmiss.
  destruct st as [[i s a x c] tk ex qs tr]; revert Hmiss; run. subst a.
  by_cases ltac:(first [rewrite Hne | rewrite H0 | rewrite H1]);
    try discriminate; intros _; try congruence; repeat split.
Qed.

Lemma makeRequest_trace_step
      (endpoint query : string) (env : Env) (st : State) :
  let st' := snd (makeRequest endpoint query env st) in
  (trace st' = trace st /\ accessToken (this st') = accessToken (this st))
  \/ (exists rest,
        trace st'
        = (trace st ++ TokenPost (clientId (this st)) (clientSecret (this st))
             :: rest)%list)
  \/ (exists tok rest,
        accessToken (this st) = Some tok
        /\ trace st' = (trace st ++ rest)%list).
Proof.
  destruct st as [[i s a x c] tk ex qs tr]; run.
  by_cases fail;
    first [ left; split; reflexivity
          | right; left; rewrite <- ?app_assoc; eexists; reflexivity
          | right; right; eexists; eexists; split; reflexivity ].
Qed.

Section Authentication.

Variable objectFirst : list (string * Value) -> Completion Value.

(** X18. A client authenticates before it asks: in every reachable state
    the first outbound request the client has ever sent, if it has sent
    one, is a token exchange with its credentials, and a client that has
    sent nothing holds no token. *)
Theorem first_request_is_token_exchange (st : State) :
  reachable objectFirst st ->
  (trace st = [] /\ accessToken (this st) = None)
  \/ exists rest,
      trace st
      = TokenPost (clientId (this st)) (clientSecret (this st)) :: rest.
Proof.
  induction 1 as [id secret | env c st Hr IH | env st Hr IH].
  - left. now split.
  - rewrite invoke_validate.
    destruct (validate c) as [[endpoint query]|e]; [|exact IH].
    pose proof (makeRequest_trace_step endpoint query env st) as Hstep.
    pose proof (makeRequest_credentials endpoint query env st) as [Hi Hs].
    destruct (makeRequest endpoint query env st) as [r st'] eqn:Hm.
    cbn [snd] in Hstep, Hi, Hs.
    assert (H : (trace st' = [] /\ accessToken (this st') = None)
                \/ exists rest,
                    trace st'
                    = TokenPost (clientId (this st')) (clientSecret (this st'))
                        :: rest).
    { rewrite Hi, Hs.
      destruct IH as [[Hnil Hnone] | [rest Hrest]].
      - destruct Hstep as [[Ht Ha] | [[l Hl] | (tok & l & Ha & _)]].
        + left. split; congruence.
        + right. exists l. now rewrite Hl, Hnil.
        + congruence.
      - right.
        destruct Hstep as [[Ht Ha] | [[l Hl] | (tok & l & _ & Hl)]].
        + exists rest. congruence.
        + eexists. rewrite Hl, Hrest. reflexivity.
        + eexists. rewrite Hl, Hrest. reflexivity. }
    destruct r; exact H.
  - exact IH.
Qed.

End Authentication.

(** *** The further properties at work *)

Lemma unconfigured_never_sends_witness :
  trace (snd (invoke objectFirst_undefined (SearchGames "zelda" None)
                     (world (Ok (VArr [a_record]))) unconfigured_client)) = [].
Proof.
  destruct (unconfigured_never_sends
              objectFirst_undefined
              (snd (invoke objectFirst_undefined (SearchGames "zelda" None)
                           (world (Ok (VArr [a_record]))) unconfigured_client))
              (reach_call _ _ _ _ (reach_new _ _ _)) eq_refl) as [H _].
  exact H.
Defined.

Lemma getAccessToken_exchange_rejected_witness :
  fst (getAccessToken offline_world configured_client)
  = Throw AuthenticationError_exchange
  /\ this (snd (getAccessToken offline_world configured_client))
     = this configured_client.
Proof.
  destruct (getAccessToken_exchange_rejected
              offline_world configured_client
              (snd (getAccessToken offline_world configured_client))
              (fst (getAccessToken offline_world configured_client))
              (AxiosError None (Some "ERR_NETWORK"))
              eq_refl eq_refl eq_refl) as (Hr & Hs & _).
  split; assumption.
Defined.

Lemma short_lived_token_not_reused_witness :
  let env := short_world (Ok VNull) in
  let st' := snd (getAccessToken env configured_client) in
  trace (snd (getAccessToken env st'))
  = [TokenPost "id" "secret"; TokenPost "id" "secret"].
Proof.
  intros env st'.
  destruct (short_lived_token_not_reused
              env env configured_client st'
              (fst (getAccessToken env configured_client))
              (mkTokenResponse "token" 30 "bearer")
              eq_refl eq_refl eq_refl) as [_ H].
  - vm_compute. discriminate.
  - vm_compute. discriminate.
  - rewrite H. reflexivity.
Defined.

Lemma setCachedData_then_getCachedData_witness :
  let env := world (Ok VNull) in
  let st1 := snd (setCachedData "key" VNull env configured_client) in
  getCachedData "key" env st1 = (Ok VNull, tick st1)
  /\ fst (getCachedData "key" (slow_world (Ok VNull))
                        (snd (setCachedData "key" (VNum 1) env
                                            configured_client)))
     = Ok VNull.
Proof.
  intros env st1. split.
  - destruct (setCachedData_then_getCachedData
                "key" VNull env env configured_client) as (_ & H & _).
    apply H. reflexivity.
  - destruct (setCachedData_then_getCachedData
                "key" (VNum 1) env (slow_world (Ok VNull)) configured_client)
      as (_ & _ & H & _).
    rewrite H; [reflexivity|]. vm_compute. discriminate.
Defined.

Lemma makeRequest_cache_effect_witness :
  let env := world (Ok (VArr [])) in
  Map_keys (requestCache (this (snd (makeRequest "genres" listQuery env
                                                 configured_client))))
  = [getCacheKey "genres" listQuery]
  /\ requestCache (this (snd (makeRequest "genres" listQuery offline_world
                                          configured_client))) = [].
Proof.
  intros env. split.
  - destruct (makeRequest_cache_effect
                "genres" listQuery env configured_client
                (snd (makeRequest "genres" listQuery env configured_client))
                (fst (makeRequest "genres" listQuery env configured_client))
                eq_refl) as (_ & _ & _ & [H|[_ H]]).
    + vm_compute in H. discriminate.
    + rewrite H. reflexivity.
  - destruct (makeRequest_cache_effect
                "genres" listQuery offline_world configured_client
                (snd (makeRequest "genres" listQuery offline_world
                                  configured_client))
                (fst (makeRequest "genres" listQuery offline_world
                                  configured_client))
                eq_refl) as (_ & H & _).
    apply (H AuthenticationError_exchange). reflexivity.
Defined.

Lemma reachable_after_three_calls :
  reachable objectFirst_undefined after_three_calls.
Proof.
  unfold after_three_calls.
  apply reach_call. apply reach_call. apply reach_call. apply reach_new.
Defined.

Lemma cache_keys_distinct_witness :
  getCacheStats (world (Ok VNull)) after_three_calls
  = (Ok (2, [getCacheKey "genres" listQuery;
             getCacheKey "platforms" listQuery]), after_three_calls)
  /\ data_requests (trace after_three_calls) = 3%nat.
Proof.
  destruct (cache_keys_distinct
              objectFirst_undefined (world (Ok VNull)) after_three_calls
              reachable_after_three_calls)
    as (_ & keys & Hstats & Hkeys & _).
  split; [|reflexivity].
  rewrite Hstats, Hkeys. reflexivity.
Defined.

Lemma makeRequest_throws_only_witness :
  isValidationError AuthenticationError_exchange = false.
Proof.
  destruct (makeRequest_throws_only
              "genres" listQuery offline_world configured_client
              (snd (makeRequest "genres" listQuery offline_world
                                configured_client))
              AuthenticationError_exchange eq_refl) as (_ & H & _).
  exact H.
Defined.

Lemma makeRequest_other_rejections_witness :
  fst (makeRequest "genres" listQuery
                   (world (Throw (AxiosError None (Some "ECONNABORTED"))))
                   configured_client) = Throw TimeoutError
  /\ fst (makeRequest "genres" listQuery
                      (world (Throw (AxiosError (Some 500)
                                                (Some "ERR_BAD_RESPONSE"))))
                      configured_client) = Throw (UpstreamError "genres").
Proof.
  split.
  - destruct (makeRequest_other_rejections
                "genres" listQuery
                (world (Throw (AxiosError None (Some "ECONNABORTED"))))
                configured_client
                (snd (makeRequest "genres" listQuery
                        (world (Throw (AxiosError None (Some "ECONNABORTED"))))
                        configured_client))
                (fst (makeRequest "genres" listQuery
                        (world (Throw (AxiosError None (Some "ECONNABORTED"))))
                        configured_client))
                (AxiosError None (Some "ECONNABORTED"))
                eq_refl eq_refl eq_refl) as (H & _).
    + discriminate.
    + discriminate.
    + apply H. reflexivity.
  - destruct (makeRequest_other_rejections
                "genres" listQuery
                (world (Throw (AxiosError (Some 500) (Some "ERR_BAD_RESPONSE"))))
                configured_client
                (snd (makeRequest "genres" listQuery
                        (world (Throw (AxiosError (Some 500)
                                                  (Some "ERR_BAD_RESPONSE"))))
                        configured_client))
                (fst (makeRequest "genres" listQuery
                        (world (Throw (AxiosError (Some 500)
                                                  (Some "ERR_BAD_RESPONSE"))))
                        configured_client))
                (AxiosError (Some 500) (Some "ERR_BAD_RESPONSE"))
                eq_refl eq_refl eq_refl) as (_ & H & _).
    + discriminate.
    + discriminate.
    + apply H. discriminate.
Defined.

Lemma makeRequest_first_request_witness :
  let env := world (Ok (VArr [a_record])) in
  fst (makeRequest "genres" listQuery env configured_client)
  = Ok (VArr [a_record])
  /\ trace (snd (makeRequest "genres" listQuery env configured_client))
     = [TokenPost "id" "secret"; DataPost "genres" listQuery "id" "token"].
Proof.
  intros env.
  destruct (makeRequest_first_request
              "genres" listQuery env configured_client
              (mkTokenResponse "token" 3600 "bearer") (VArr [a_record])
              eq_refl eq_refl eq_refl eq_refl eq_refl) as (Hr & Ht & _).
  split; assumption.
Defined.

Lemma limit_clamped_and_defaulted_witness :
  searchGames "zelda" (Some 1000) = searchGames "zelda" (Some 50)
  /\ getPopularGames (Some (-3))
     = makeRequest "games"
         (template
            [fields_full;
             "where rating_count > 100 & version_parent = null & category = 0;";
             "sort rating desc;";
             "limit -3;"])
  /\ getGamesByGenre 12 (Some 0)
     = makeRequest "games"
         (template
            [fields_full;
             "where genres = 12 & version_parent = null & category = 0;";
             "sort rating desc;";
             "limit 0;"]).
Proof.
  split; [|split].
  - destruct (limit_clamped_and_defaulted "zelda" 1 1 1000) as (H & _).
    assert (Hle : 50 <= 1000) by discriminate.
    destruct (H Hle) as [Hs _]. exact Hs.
  - destruct (limit_clamped_and_defaulted "zelda" 1 1 (-3)) as (_ & _ & H).
    assert (Hle : -3 <= 50) by discriminate.
    assert (Hsafe : safe_integer (-3)) by (split; reflexivity).
    destruct (H Hle Hsafe) as (_ & Hp & _). exact Hp.
  - destruct (limit_clamped_and_defaulted "zelda" 12 1 0) as (_ & _ & H).
    assert (Hle : 0 <= 50) by discriminate.
    assert (Hsafe : safe_integer 0) by (split; reflexivity).
    destruct (H Hle Hsafe) as (_ & _ & Hg & _).
    apply Hg; [reflexivity | split; reflexivity].
Defined.

Lemma getGamesByGenre_getGamesByPlatform_validation_witness :
  let env := world (Ok (VArr [])) in
  getGamesByGenre 0 None env configured_client
  = (Throw ValidationError_genreId, configured_client)
  /\ getGamesByPlatform 6 (Some 10) env configured_client
     = makeRequest "games" (byPlatformQuery 6 10) env configured_client.
Proof.
  intros env. split.
  - destruct (getGamesByGenre_getGamesByPlatform_validation
                0 None env configured_client) as (H & _).
    assert (Hle : 0 <= 0) by discriminate.
    destruct (H Hle) as [Hg _]. exact Hg.
  - destruct (getGamesByGenre_getGamesByPlatform_validation
                6 (Some 10) env configured_client) as (_ & H).
    assert (Hlt : 0 < 6) by reflexivity.
    destruct (H Hlt) as (_ & Hp & _). exact Hp.
Defined.

Lemma getCacheKey_and_endpoints_witness :
  let env := world (Ok (VArr [a_record])) in
  let st := snd (makeRequest "games" "x:y" env configured_client) in
  makeRequest "games:x" "y" env st = makeRequest "games" "x:y" env st
  /\ (getCacheKey "games" "a" = getCacheKey "games" "a" ->
      "games" = "games" /\ "a" = "a").
Proof.
  intros env st. split.
  - destruct (getCacheKey_and_endpoints "games" "x:y" "games:x" "y")
      as (_ & _ & _ & H).
    apply H; reflexivity.
  - destruct (getCacheKey_and_endpoints "games" "a" "games" "a") as (H & _).
    apply H; unfold colon_free; cbn; intros Hin;
      repeat destruct Hin as [Hin|Hin]; discriminate || contradiction.
Defined.

Lemma different_arguments_different_keys_witness :
  getCacheKey "games" (byIdQuery 7) <> getCacheKey "games" (byIdQuery 8)
  /\ getCacheKey "games" (searchQuery "zelda" 20)
     <> getCacheKey "games" (searchQuery "Zelda" 20).
Proof.
  destruct different_arguments_different_keys as (Hq & _ & Hid & _).
  split.
  - apply (Hid 7 8). discriminate.
  - apply (Hq "zelda" "Zelda" 20). discriminate.
Defined.

Lemma makeRequest_reuses_valid_token_witness :
  let env := world (Ok (VArr [])) in
  let st := after_getGenres env in
  trace (snd (makeRequest "platforms" listQuery env st))
  = (trace st ++ [DataPost "platforms" listQuery "id" "token"])%list.
Proof.
  intros env st.
  destruct (makeRequest_reuses_valid_token
              "platforms" listQuery env st "token"
              eq_refl (conj eq_refl eq_refl) eq_refl eq_refl eq_refl)
    as [H _].
  exact H.
Defined.

Lemma first_request_is_token_exchange_witness :
  exists rest,
    trace (after_getGenres (world (Ok (VArr []))))
    = TokenPost "id" "secret" :: rest.
Proof.
  destruct (first_request_is_token_exchange
              objectFirst_undefined (after_getGenres (world (Ok (VArr []))))
              (reachable_after_getGenres _)) as [[H _]|H].
  - vm_compute in H. discriminate.
  - exact H.
Defined.
